(** * Notes database module (db.js): a shallow embedding and its properties

    The module keeps one SQLite table, [notes], and exposes CRUD, bulk
    insert, search, statistics and a one-way sync cycle.  The SQL statements
    of the module are embedded as functions on an explicit table state; the
    JavaScript functions around them are embedded as the code is written,
    statement by statement.

    What the embedding takes from the engine and the runtime:
    - a table is the list of its rows in rowid order, with the
      [sqlite_sequence] counter of [AUTOINCREMENT];
    - a statement is atomic, and the only constraint of the schema that a
      statement of the module can violate is [title TEXT NOT NULL];
    - [CURRENT_TIMESTAMP] is an argument of the statement that reads it;
    - text is a sequence of bytes ([string]); [LIKE] folds ASCII letters
      only, as SQLite does;
    - resources are unbounded: the engine's limits on statement size, bound
      variables and storage are not part of the model. *)

From Stdlib Require Import ZArith List String Ascii Bool Lia Arith.
From Stdlib Require Import Permutation Sorted DecimalString.
Import ListNotations.

Open Scope Z_scope.

(** ** Data model *)

(** [sync_status TEXT DEFAULT 'pending' -- 'pending', 'synced', 'error']:
    the module only ever writes these three literals. *)
Inductive SyncStatus : Type :=
| Pending
| Synced
| SyncError.

Definition SyncStatus_eqb (a b : SyncStatus) : bool :=
  match a, b with
  | Pending, Pending | Synced, Synced | SyncError, SyncError => true
  | _, _ => false
  end.

(** [CURRENT_TIMESTAMP] values.  SQLite stores them as the text
    [YYYY-MM-DD HH:MM:SS], whose text order is the order of the instants;
    the embedding keeps the instant, in seconds. *)
Definition timestamp : Type := Z.

(** One row of [notes].  [title] is [TEXT NOT NULL]; [content] and
    [synced_at] are nullable columns. *)
Record Note : Type := mkNote {
  id : Z;
  title : string;
  content : option string;
  created_at : timestamp;
  updated_at : timestamp;
  synced_at : option timestamp;
  sync_status : SyncStatus
}.

(** The table: its rows in rowid order, and the counter that
    [AUTOINCREMENT] keeps in [sqlite_sequence]. *)
Record Db : Type := mkDb {
  rows : list Note;
  seq : Z
}.

Definition empty_db : Db := {| rows := []; seq := 0 |}.

(** ** Exceptions and statements *)

(** A JavaScript call either returns a value or throws an error with a
    message. *)
Inductive Result (A : Type) : Type :=
| Ok (a : A)
| Raise (message : string).

Arguments Ok {A} a.
Arguments Raise {A} message.

Definition is_ok {A : Type} (r : Result A) : bool :=
  match r with Ok _ => true | Raise _ => false end.

(** Code that runs statements against the connection: it returns or throws,
    and leaves the table in some state either way. *)
Definition Op (A : Type) : Type := Db -> Result A * Db.

Definition ret {A : Type} (a : A) : Op A := fun db => (Ok a, db).

Definition bind {A B : Type} (m : Op A) (k : A -> Op B) : Op B :=
  fun db =>
    match m db with
    | (Ok a, db') => k a db'
    | (Raise e, db') => (Raise e, db')
    end.

Definition read {A : Type} (q : Db -> A) : Op A := fun db => (Ok (q db), db).

Notation "x <- m ;; k" := (bind m (fun x => k))
  (at level 61, m at next level, right associativity).

(** A single statement is atomic: when it fails the table is as before. *)
Definition stmt {A : Type} (s : Db -> Result (A * Db)) : Op A :=
  fun db =>
    match s db with
    | Ok (a, db') => (Ok a, db')
    | Raise e => (Raise e, db)
    end.

(** [db.transaction(fn)]: BEGIN, run [fn], COMMIT when it returns, ROLLBACK
    and rethrow when it throws. *)
Definition transaction {A : Type} (fn : Op A) : Op A :=
  fun db =>
    match fn db with
    | (Ok a, db') => (Ok a, db')
    | (Raise e, _) => (Raise e, db)
    end.

(** *** The engine's statements *)

Definition max_rowid (rs : list Note) : Z :=
  fold_right (fun n m => Z.max (id n) m) 0 rs.

(** [INTEGER PRIMARY KEY AUTOINCREMENT]: one more than the largest rowid the
    table has ever held. *)
Definition next_rowid (db : Db) : Z :=
  Z.max (seq db) (max_rowid (rows db)) + 1.

Definition not_null_title : string :=
  "NOT NULL constraint failed: notes.title"%string.

(** [INSERT INTO notes (title, content, sync_status) VALUES (?, ?, 'pending')];
    a bound [null] is [None].  Both timestamp columns take their default,
    [CURRENT_TIMESTAMP], which is one value within a statement.  The result is
    [lastInsertRowid]. *)
Definition sql_insert (now : timestamp) (t c : option string) (db : Db)
  : Result (Z * Db) :=
  match t with
  | None => Raise not_null_title
  | Some t' =>
      let i := next_rowid db in
      Ok (i, {| rows := rows db ++ [mkNote i t' c now now None Pending];
                seq := i |})
  end.

Definition count_rows (p : Note -> bool) (rs : list Note) : nat :=
  List.length (filter p rs).

Definition update_rows (p : Note -> bool) (f : Note -> Note) (rs : list Note)
  : list Note :=
  map (fun n => if p n then f n else n) rs.

Definition has_id (i : Z) (n : Note) : bool := id n =? i.

Definition set_text (now : timestamp) (t : string) (c : option string)
  (n : Note) : Note :=
  mkNote (id n) t c (created_at n) now (synced_at n) Pending.

(** [UPDATE notes SET title = ?, content = ?, updated_at = CURRENT_TIMESTAMP,
    sync_status = 'pending' WHERE id = ?].  The NOT NULL check runs on the
    rows the statement touches.  The result is [changes]: the rows matched,
    whether or not a value differs. *)
Definition sql_update (now : timestamp) (t c : option string) (i : Z) (db : Db)
  : Result (nat * Db) :=
  let hit := count_rows (has_id i) (rows db) in
  match t with
  | None =>
      if (hit =? 0)%nat then Ok (O, db) else Raise not_null_title
  | Some t' =>
      Ok (hit, {| rows := update_rows (has_id i) (set_text now t' c) (rows db);
                  seq := seq db |})
  end.

(** [DELETE FROM notes WHERE id = ?]; the result is [changes]. *)
Definition sql_delete (i : Z) (db : Db) : Result (nat * Db) :=
  Ok (count_rows (has_id i) (rows db),
      {| rows := filter (fun n => negb (has_id i n)) (rows db);
         seq := seq db |}).

Definition id_in (ids : list Z) (n : Note) : bool :=
  existsb (Z.eqb (id n)) ids.

Definition set_synced (now : timestamp) (n : Note) : Note :=
  mkNote (id n) (title n) (content n) (created_at n) (updated_at n)
         (Some now) Synced.

Definition set_error (n : Note) : Note :=
  mkNote (id n) (title n) (content n) (created_at n) (updated_at n)
         (synced_at n) SyncError.

(** [UPDATE notes SET sync_status = 'synced', synced_at = CURRENT_TIMESTAMP
    WHERE id IN (?,...)]; the result is [changes]. *)
Definition sql_mark_synced (now : timestamp) (ids : list Z) (db : Db)
  : nat * Db :=
  (count_rows (id_in ids) (rows db),
   {| rows := update_rows (id_in ids) (set_synced now) (rows db);
      seq := seq db |}).

(** [UPDATE notes SET sync_status = 'error' WHERE id IN (?,...)]. *)
Definition sql_mark_error (ids : list Z) (db : Db) : nat * Db :=
  (count_rows (id_in ids) (rows db),
   {| rows := update_rows (id_in ids) set_error (rows db);
      seq := seq db |}).

(** ** CRUD *)

(** [SELECT * FROM notes WHERE id = ?], then [stmt.get(id) || null]. *)
Definition getNoteById (i : Z) (db : Db) : option Note :=
  find (has_id i) (rows db).

(** [addNote(title, content)]: run the insert, then read the new row back.
    A caller that omits [content] gets the default parameter, [Some ""]. *)
Definition addNote (now : timestamp) (t c : option string) : Op (option Note) :=
  result <- stmt (sql_insert now t c) ;;
  read (getNoteById result).

Definition updateNote (now : timestamp) (i : Z) (t c : option string)
  : Op (option Note) :=
  changes <- stmt (sql_update now t c i) ;;
  if (changes =? 0)%nat then ret None else read (getNoteById i).

Definition deleteNote (i : Z) : Op bool :=
  changes <- stmt (sql_delete i) ;;
  ret (0 <? changes)%nat.

(** ** Bulk insert *)

(** An element of the array given to [addNotesBulk]; a missing or [null]
    property is [None]. *)
Record NoteInput : Type := mkInput {
  in_title : option string;
  in_content : option string
}.

(** [note.content || '']: [undefined], [null] and [''] all give ['']. *)
Definition content_or_empty (c : option string) : string :=
  match c with
  | Some s => s
  | None => EmptyString
  end.

(** The body of [insertMany]: [for (const note of notes)] with the [ids]
    array built so far.  [clock k] is the [CURRENT_TIMESTAMP] that the
    statement for element [k] of the call sees. *)
Fixpoint insertMany (clock : nat -> timestamp) (notes : list NoteInput)
  (ids : list Z) : Op (list Z) :=
  match notes with
  | [] => ret ids
  | note :: rest =>
      result <- stmt (sql_insert (clock (List.length ids)) (in_title note)
                        (Some (content_or_empty (in_content note)))) ;;
      insertMany clock rest (ids ++ [result])
  end.

Definition addNotesBulk (clock : nat -> timestamp) (notes : list NoteInput)
  : Op (list Z) :=
  transaction (insertMany clock notes []).

(** ** Listing *)

(** [ORDER BY]: the rows are sorted on the key, rows with equal keys staying
    in the order the scan produced them. *)
Fixpoint insert_by (le : Note -> Note -> bool) (x : Note) (l : list Note)
  : list Note :=
  match l with
  | [] => [x]
  | y :: l' => if le x y then x :: l else y :: insert_by le x l'
  end.

Definition order_by (le : Note -> Note -> bool) (l : list Note) : list Note :=
  fold_right (insert_by le) [] l.

(** The comparison a column name stands for in [ORDER BY <column>]; a name
    that is not a column of [notes] makes [db.prepare] throw. *)
Definition column_le (column : string) : option (Note -> Note -> bool) :=
  if (column =? "id")%string then Some (fun a b => id a <=? id b)
  else if (column =? "title")%string
       then Some (fun a b => String.leb (title a) (title b))
  else if (column =? "created_at")%string
       then Some (fun a b => created_at a <=? created_at b)
  else if (column =? "updated_at")%string
       then Some (fun a b => updated_at a <=? updated_at b)
  else None.

(** The double quote character, as a string. *)
Definition quote : string := String (ascii_of_nat 34) EmptyString.

(** [SELECT * FROM notes ORDER BY <column> <direction>], as text. *)
Definition sql_select_ordered (column direction : string) (db : Db)
  : Result (list Note) :=
  match column_le column with
  | None => Raise ("no such column: " ++ column)%string
  | Some le =>
      if (direction =? "ASC")%string then Ok (order_by le (rows db))
      else if (direction =? "DESC")%string
           then Ok (order_by (fun a b => le b a) (rows db))
      else Raise ("near " ++ quote ++ direction ++ quote ++ ": syntax error")%string
  end.

Definition allowedColumns : list string :=
  ["id"; "title"; "created_at"; "updated_at"]%string.

Definition array_includes (l : list string) (x : string) : bool :=
  existsb (String.eqb x) l.

Section Listing.

(** [String.prototype.toUpperCase], the runtime's. *)
Variable toUpperCase : string -> string.

Definition getNotes (sortBy order : string) (db : Db) : Result (list Note) :=
  let sortColumn :=
    if array_includes allowedColumns sortBy then sortBy else "created_at"%string in
  let sortOrder :=
    if (toUpperCase order =? "ASC")%string then "ASC"%string else "DESC"%string in
  sql_select_ordered sortColumn sortOrder db.

End Listing.

(** What [toUpperCase] does on ASCII text: letters [a]-[z] go to [A]-[Z],
    every other byte is kept. *)
Definition upper_ascii (c : ascii) : ascii :=
  let n := nat_of_ascii c in
  if ((97 <=? n) && (n <=? 122))%nat then ascii_of_nat (n - 32) else c.

Fixpoint toUpperCase_ascii (s : string) : string :=
  match s with
  | EmptyString => EmptyString
  | String c s' => String (upper_ascii c) (toUpperCase_ascii s')
  end.

(** ** Sync status *)

Definition needs_sync (n : Note) : bool :=
  match sync_status n with
  | Pending | SyncError => true
  | Synced => false
  end.

(** [SELECT * FROM notes WHERE sync_status IN ('pending', 'error')
    ORDER BY created_at ASC]. *)
Definition getNotesToSync (db : Db) : list Note :=
  order_by (fun a b => created_at a <=? created_at b)
           (filter needs_sync (rows db)).

(** [if (!ids || ids.length === 0) return 0;] then the one bulk statement.
    [None] is a [null] or [undefined] argument. *)
Definition markNotesAsSynced (now : timestamp) (ids : option (list Z)) : Op nat :=
  match ids with
  | None | Some [] => ret O
  | Some l => stmt (fun db => Ok (sql_mark_synced now l db))
  end.

Definition markNotesSyncError (ids : option (list Z)) : Op nat :=
  match ids with
  | None | Some [] => ret O
  | Some l => stmt (fun db => Ok (sql_mark_error l db))
  end.

(** ** Search *)

Definition lower_ascii (c : ascii) : ascii :=
  let n := nat_of_ascii c in
  if ((65 <=? n) && (n <=? 90))%nat then ascii_of_nat (n + 32) else c.

Definition is_wildcard (c : ascii) : bool :=
  (c =? "%")%char || (c =? "_")%char.

(** SQLite's [LIKE] with no escape character: [%] matches any run of
    characters, [_] matches one character, any other character matches
    itself up to ASCII letter case. *)
Fixpoint like_chars (p s : list ascii) {struct p} : bool :=
  match p with
  | [] => match s with [] => true | _ :: _ => false end
  | c :: p' =>
      if (c =? "%")%char then
        (fix any_run (s : list ascii) : bool :=
           like_chars p' s
           || match s with [] => false | _ :: s' => any_run s' end) s
      else
        match s with
        | [] => false
        | d :: s' =>
            ((c =? "_")%char || (lower_ascii c =? lower_ascii d)%char)
            && like_chars p' s'
        end
  end.

Definition sql_like (text pattern : string) : bool :=
  like_chars (list_ascii_of_string pattern) (list_ascii_of_string text).

(** [title LIKE ? OR content LIKE ?]: a NULL content makes the second
    operand NULL, and the row is kept only when the first is true. *)
Definition search_hit (searchTerm : string) (n : Note) : bool :=
  sql_like (title n) searchTerm
  || match content n with
     | Some c => sql_like c searchTerm
     | None => false
     end.

Definition searchNotes (query : string) (db : Db) : list Note :=
  let searchTerm := ("%" ++ query ++ "%")%string in
  order_by (fun a b => created_at b <=? created_at a)
           (filter (search_hit searchTerm) (rows db)).

(** ** Statistics *)

Record Stats : Type := mkStats {
  total : nat;
  pending : nat;
  synced : nat
}.

Definition has_status (s : SyncStatus) (n : Note) : bool :=
  SyncStatus_eqb (sync_status n) s.

Definition getStats (db : Db) : Stats :=
  {| total := List.length (rows db);
     pending := count_rows (has_status Pending) (rows db);
     synced := count_rows (has_status Synced) (rows db) |}.

(** ** Sync with the backend *)

Module Wire.
(** An element of [syncData]: the note without its sync bookkeeping. *)
Record note : Type := mk {
  id : Z;
  title : string;
  content : option string;
  created_at : timestamp;
  updated_at : timestamp
}.
End Wire.

Definition to_wire (n : Note) : Wire.note :=
  {| Wire.id := id n;
     Wire.title := title n;
     Wire.content := content n;
     Wire.created_at := created_at n;
     Wire.updated_at := updated_at n |}.

(** The one request of a cycle: [POST <apiUrl>/api/sync] with the body
    [{ notes: syncData }]. *)
Record Request : Type := mkRequest {
  url : string;
  method : string;
  notes : list Wire.note
}.

(** What [await response.json()] gives: a rejection, [null], or an object
    whose [syncedIds] and [failedIds] are arrays when present. *)
Inductive JsonBody : Type :=
| JsonRejected (message : string)
| JsonNull
| JsonObject (syncedIds failedIds : option (list Z)).

Record Response : Type := mkResponse {
  ok : bool;
  status : nat;
  statusText : string;
  json : JsonBody
}.

(** What [await fetch(...)] gives: the promise rejects when the transport
    fails (Node's fetch rejects with the message [fetch failed]), or resolves
    with a response. *)
Inductive FetchOutcome : Type :=
| FetchRejected (message : string)
| FetchResolved (response : Response).

(** An [async] function with one suspension point: it returns, or it awaits
    the fetch and resumes with the outcome. *)
Inductive Async (A : Type) : Type :=
| Return (a : A)
| AwaitFetch (request : Request) (resume : FetchOutcome -> A).

Arguments Return {A} a.
Arguments AwaitFetch {A} request resume.

Record SyncResult : Type := mkSyncResult {
  success : bool;
  synced_count : nat;
  failed_count : option nat;
  error : option string;
  message : string
}.

Definition string_of_nat (n : nat) : string :=
  NilEmpty.string_of_uint (Nat.to_uint n).

(** [String.prototype.includes]. *)
Fixpoint includes (s needle : string) : bool :=
  String.prefix needle s
  || match s with
     | EmptyString => false
     | String _ s' => includes s' needle
     end.

(** [x?.length || 0]. *)
Definition length_or_zero (x : option (list Z)) : nat :=
  match x with
  | Some l => List.length l
  | None => O
  end.

(** [x && x.length > 0]. *)
Definition non_empty (x : option (list Z)) : bool :=
  match x with
  | Some (_ :: _) => true
  | _ => false
  end.

Definition raise {A : Type} (m : string) : Op A := fun db => (Raise m, db).

Definition null_property : string :=
  "Cannot read properties of null (reading 'syncedIds')"%string.

(** The [try] block from the point where [fetch] has settled. *)
Definition after_fetch (now : timestamp) (outcome : FetchOutcome)
  : Op SyncResult :=
  match outcome with
  | FetchRejected m => raise m
  | FetchResolved response =>
      if negb (ok response) then
        raise ("Sync failed: " ++ string_of_nat (status response) ++ " "
               ++ statusText response)%string
      else
        match json response with
        | JsonRejected m => raise m
        | JsonNull => raise null_property
        | JsonObject syncedIds failedIds =>
            _ <- (if non_empty syncedIds
                  then markNotesAsSynced now syncedIds else ret O) ;;
            _ <- (if non_empty failedIds
                  then markNotesSyncError failedIds else ret O) ;;
            ret {| success := true;
                   synced_count := length_or_zero syncedIds;
                   failed_count := Some (length_or_zero failedIds);
                   error := None;
                   message := ("Synced " ++ string_of_nat (length_or_zero syncedIds)
                               ++ " notes successfully")%string |}
        end
  end.

Definition offline_result : SyncResult :=
  {| success := false;
     synced_count := O;
     failed_count := None;
     error := Some "Network error: App appears to be offline"%string;
     message := "Cannot sync while offline. Changes will be synced when connection is restored."%string |}.

Definition failure_result (m : string) : SyncResult :=
  {| success := false;
     synced_count := O;
     failed_count := None;
     error := Some m;
     message := "Sync failed. Please try again later."%string |}.

(** The test of the [catch] block: is it a network error (offline)? *)
Definition is_network_error (m : string) : bool :=
  includes m "fetch" || includes m "network".

Definition catch_block (m : string) : SyncResult :=
  if is_network_error m then offline_result else failure_result m.

(** [try { ... } catch (error) { ... }]: the table stays as the [try] block
    left it. *)
Definition try_catch (body : Op SyncResult) (db : Db) : SyncResult * Db :=
  match body db with
  | (Ok r, db') => (r, db')
  | (Raise m, db') => (catch_block m, db')
  end.

Definition no_notes_result : SyncResult :=
  {| success := true;
     synced_count := O;
     failed_count := None;
     error := None;
     message := "No notes to sync"%string |}.

(** [now] is the [CURRENT_TIMESTAMP] of the statement that marks notes as
    synced, after the fetch has settled. *)
Definition syncWithBackend (now : timestamp) (apiUrl : string) (db : Db)
  : Async (SyncResult * Db) :=
  let notesToSync := getNotesToSync db in
  if (List.length notesToSync =? 0)%nat then
    Return (no_notes_result, db)
  else
    let syncData := map to_wire notesToSync in
    AwaitFetch
      {| url := (apiUrl ++ "/api/sync")%string;
         method := "POST"%string;
         notes := syncData |}
      (fun outcome => try_catch (after_fetch now outcome) db).

(** One whole cycle against a remote that answers [fetch]. *)
Definition sync_cycle (fetch : Request -> FetchOutcome) (now : timestamp)
  (apiUrl : string) (db : Db) : SyncResult * Db :=
  match syncWithBackend now apiUrl db with
  | Return r => r
  | AwaitFetch request resume => resume (fetch request)
  end.

(** ** Vocabulary of the properties *)

(** What one committed row owes to the input element it came from. *)
Definition row_of_input (inp : NoteInput) (r : Note) : Prop :=
  in_title inp = Some (title r)
  /\ content r = Some (content_or_empty (in_content inp))
  /\ sync_status r = Pending
  /\ synced_at r = None
  /\ created_at r = updated_at r.

(** The fields that belong to the note's text and history. *)
Definition same_text (n n' : Note) : Prop :=
  id n' = id n
  /\ title n' = title n
  /\ content n' = content n
  /\ created_at n' = created_at n
  /\ updated_at n' = updated_at n.

(** The notes an id list given to a marking operation names. *)
Definition targeted (ids : option (list Z)) (n : Note) : bool :=
  match ids with
  | Some l => id_in l n
  | None => false
  end.

Definition SyncStatus_eq_dec (a b : SyncStatus) : {a = b} + {a <> b}.
Proof. decide equality. Defined.

(** The number of notes of a table that have a given status. *)
Definition notes_with_status (s : SyncStatus) (db : Db) : nat :=
  count_occ SyncStatus_eq_dec (map sync_status (rows db)) s.

(** Sample rows and tables on which the properties are run. *)
Definition demo_note (i : Z) (t : string) (at_ : timestamp) (s : SyncStatus)
  : Note :=
  mkNote i t (Some EmptyString) at_ at_ None s.

Definition demo_db : Db :=
  {| rows := [demo_note 1 "a" 10 Pending;
              demo_note 2 "b" 30 Pending;
              demo_note 3 "c" 20 Pending];
     seq := 3 |}.

(** [%] in front of a pattern: the rest of the pattern matches some suffix. *)
Fixpoint skip_any (p s : list ascii) : bool :=
  like_chars p s
  || match s with
     | [] => false
     | _ :: s' => skip_any p s'
     end.

(** The query has no character that [LIKE] reads as a wildcard. *)
Definition no_wildcard (query : string) : Prop :=
  Forall (fun c => is_wildcard c = false) (list_ascii_of_string query).

(** [text] contains [query] as a substring, up to ASCII letter case. *)
Definition contains_nocase (text query : string) : Prop :=
  exists pre mid post,
    list_ascii_of_string text = pre ++ mid ++ post
    /\ map lower_ascii mid = map lower_ascii (list_ascii_of_string query).

(** [text] contains [query] as a substring, literally. *)
Definition contains (text query : string) : Prop :=
  exists pre post, text = (pre ++ query ++ post)%string.

(** The note matches the query in its title or in its (non-null) content,
    up to ASCII letter case. *)
Definition matches_query (query : string) (n : Note) : Prop :=
  contains_nocase (title n) query
  \/ exists c, content n = Some c /\ contains_nocase c query.

(** The note matches the query in its title or content, literally. *)
Definition matches_literally (query : string) (n : Note) : Prop :=
  contains (title n) query
  \/ exists c, content n = Some c /\ contains c query.

Definition wildcard_db : Db :=
  {| rows := [demo_note 1 "a" 10 Pending]; seq := 1 |}.

(** What holds of every row at time [now] with id counter [s]: its id has
    been handed out, and it was created no later than it was updated, which
    was no later than now. *)
Definition row_ok (now : timestamp) (s : Z) (n : Note) : Prop :=
  0 < id n <= s /\ created_at n <= updated_at n <= now.

Definition db_inv (now : timestamp) (db : Db) : Prop :=
  NoDup (map id (rows db)) /\ Forall (row_ok now (seq db)) (rows db)
  /\ 0 <= seq db.

Definition preserves {A : Type} (now : timestamp) (op : Op A) : Prop :=
  forall db, db_inv now db -> db_inv now (snd (op db)).

(** The tables that calls to the module produce from the empty table, as
    time goes by: [reachable t db] when [db] is the table at time [t]. *)
Inductive reachable : timestamp -> Db -> Prop :=
| reach_open : forall t, reachable t empty_db
| reach_later : forall t t' db,
    reachable t db -> t <= t' -> reachable t' db
| reach_addNote : forall t db tt c,
    reachable t db -> reachable t (snd (addNote t tt c db))
| reach_updateNote : forall t db i tt c,
    reachable t db -> reachable t (snd (updateNote t i tt c db))
| reach_deleteNote : forall t db i,
    reachable t db -> reachable t (snd (deleteNote i db))
| reach_addNotesBulk : forall t t' db clock inputs,
    reachable t db -> (forall k, t <= clock k <= t') ->
    reachable t' (snd (addNotesBulk clock inputs db))
| reach_markNotesAsSynced : forall t db ids,
    reachable t db -> reachable t (snd (markNotesAsSynced t ids db))
| reach_markNotesSyncError : forall t db ids,
    reachable t db -> reachable t (snd (markNotesSyncError ids db))
| reach_syncWithBackend : forall t db fetch apiUrl,
    reachable t db -> reachable t (snd (sync_cycle fetch t apiUrl db)).

Definition synced_db : Db :=
  {| rows := [mkNote 1 "a" (Some "x"%string) 10 10 (Some 20) Synced]; seq := 1 |}.

(** ** The IPC handlers of the main process (main.js) *)

Module Ipc.
(** The object a handler returns to the renderer; a property that the
    handler leaves out is [None]. *)
Record reply (A : Type) : Type := mk {
  success : bool;
  data : option A;
  error : option string;
  message : option string;
  count : option nat
}.

Arguments mk {A} success data error message count.
Arguments success {A} r.
Arguments data {A} r.
Arguments error {A} r.
Arguments message {A} r.
Arguments count {A} r.

(** [{ success: false, error: error.message }]. *)
Definition failure {A : Type} (m : string) : reply A :=
  mk false None (Some m) None None.

(** [{ success: true, data: ... }]; [data] may hold [null]. *)
Definition with_data {A : Type} (d : option A) : reply A :=
  mk true d None None None.
End Ipc.

Definition note_not_found : string := "Note not found"%string.

(** ['db:addNote']. *)
Definition ipc_addNote (now : timestamp) (t c : option string) (db : Db)
  : Ipc.reply Note * Db :=
  match addNote now t c db with
  | (Ok note, db') => (Ipc.with_data note, db')
  | (Raise m, db') => (Ipc.failure m, db')
  end.

(** ['db:getNoteById']: [if (!note)] reports the missing note. *)
Definition ipc_getNoteById (i : Z) (db : Db) : Ipc.reply Note :=
  match getNoteById i db with
  | None => Ipc.failure note_not_found
  | Some note => Ipc.with_data (Some note)
  end.

(** ['db:updateNote']. *)
Definition ipc_updateNote (now : timestamp) (i : Z) (t c : option string)
  (db : Db) : Ipc.reply Note * Db :=
  match updateNote now i t c db with
  | (Ok None, db') => (Ipc.failure note_not_found, db')
  | (Ok (Some note), db') => (Ipc.with_data (Some note), db')
  | (Raise m, db') => (Ipc.failure m, db')
  end.

(** ['db:deleteNote']:
    [{ success: deleted, message: deleted ? 'Note deleted' : 'Note not found' }]. *)
Definition ipc_deleteNote (i : Z) (db : Db) : Ipc.reply unit * Db :=
  match deleteNote i db with
  | (Ok deleted, db') =>
      (Ipc.mk deleted None None
         (Some (if deleted then "Note deleted"%string else note_not_found))
         None,
       db')
  | (Raise m, db') => (Ipc.failure m, db')
  end.

(** ['db:addNotesBulk']: [{ success: true, data: ids, count: ids.length }]. *)
Definition ipc_addNotesBulk (clock : nat -> timestamp)
  (inputs : list NoteInput) (db : Db) : Ipc.reply (list Z) * Db :=
  match addNotesBulk clock inputs db with
  | (Ok ids, db') =>
      (Ipc.mk true (Some ids) None None (Some (List.length ids)), db')
  | (Raise m, db') => (Ipc.failure m, db')
  end.

(** ** The backend's sync endpoint (examples/nestjs-backend-example.ts) *)

Module Backend.
(** A row of the backend's [notes] table (the TypeORM entity). *)
Record entity : Type := mkEntity {
  id : Z;
  title : string;
  content : option string;
  created_at : timestamp;
  updated_at : timestamp;
  synced_at : option timestamp;
  sync_status : string
}.

(** [notesRepository.findOne({ where: { id } })]. *)
Definition findOne (i : Z) (store : list entity) : option entity :=
  find (fun e => id e =? i) store.

(** [notesRepository.save(e)]: the row with the entity's id is replaced, or
    the entity is added. *)
Definition save (e : entity) (store : list entity) : list entity :=
  match findOne (id e) store with
  | Some _ => map (fun x => if id x =? id e then e else x) store
  | None => store ++ [e]
  end.

(** The entity that the [try] block saves for a note of the request. *)
Definition upsert (now : timestamp) (note : Wire.note) (store : list entity)
  : list entity :=
  match findOne (Wire.id note) store with
  | Some existingNote =>
      save (mkEntity (id existingNote) (Wire.title note) (Wire.content note)
              (created_at existingNote) (Wire.updated_at note)
              (Some now) "synced")
           store
  | None =>
      save (mkEntity (Wire.id note) (Wire.title note) (Wire.content note)
              (Wire.created_at note) (Wire.updated_at note)
              (Some now) "synced")
           store
  end.

(** [for (const note of notes) { try { ... syncedIds.push(note.id) }
    catch { failedIds.push(note.id) } }].  [throws store note] tells whether
    the repository throws on this note; [clock k] is [new Date()] for the
    k-th note of the request. *)
Fixpoint sync_loop (throws : list entity -> Wire.note -> bool)
  (clock : nat -> timestamp) (notes : list Wire.note) (store : list entity)
  (syncedIds failedIds : list Z) : (list Z * list Z) * list entity :=
  match notes with
  | [] => ((syncedIds, failedIds), store)
  | note :: rest =>
      if throws store note then
        sync_loop throws clock rest store
                  syncedIds (failedIds ++ [Wire.id note])
      else
        sync_loop throws clock rest
                  (upsert (clock (List.length syncedIds + List.length failedIds)%nat)
                          note store)
                  (syncedIds ++ [Wire.id note]) failedIds
  end.

(** [POST /api/sync]: a body without a [notes] array is answered 400;
    otherwise the two id lists are returned (201 for a Nest [@Post]).  The
    [message] of the body is left out: the client does not read it. *)
Definition sync (throws : list entity -> Wire.note -> bool)
  (clock : nat -> timestamp) (body_notes : option (list Wire.note))
  (store : list entity) : Response * list entity :=
  match body_notes with
  | None => (mkResponse false 400 "Bad Request" (JsonObject None None), store)
  | Some notes =>
      let '((syncedIds, failedIds), store') :=
        sync_loop throws clock notes store [] [] in
      (mkResponse true 201 "Created"
         (JsonObject (Some syncedIds) (Some failedIds)),
       store')
  end.

End Backend.

(** ** More vocabulary *)

(** The order that [ORDER BY <column>] puts on notes, for the column that
    [getNotes] ends up sorting on: an allowed name, else created_at.  Text
    is compared byte by byte. *)
Definition key_le (sortBy : string) (a b : Note) : Prop :=
  if (sortBy =? "id")%string then id a <= id b
  else if (sortBy =? "title")%string then String.leb (title a) (title b) = true
  else if (sortBy =? "updated_at")%string then updated_at a <= updated_at b
  else created_at a <= created_at b.

(** A synced note carries the time of its sync. *)
Definition synced_has_time (n : Note) : Prop :=
  sync_status n = Synced -> synced_at n <> None.

(** * Properties *)

(** ** Rows and row ids *)

Lemma max_rowid_nonneg (rs : list Note) : 0 <= max_rowid rs.
Proof. induction rs as [|n rs IH]; simpl; lia. Qed.

Lemma max_rowid_ge (rs : list Note) (n : Note) :
  In n rs -> id n <= max_rowid rs.
Proof.
  induction rs as [|m rs IH]; simpl; [tauto|].
  intros [->|Hin]; [lia|]. specialize (IH Hin). lia.
Qed.

Lemma next_rowid_fresh (db : Db) (n : Note) :
  In n (rows db) -> id n < next_rowid db.
Proof.
  intros Hin. apply max_rowid_ge in Hin. unfold next_rowid. lia.
Qed.

Lemma find_none_iff (i : Z) (rs : list Note) :
  find (has_id i) rs = None <-> forall n, In n rs -> id n <> i.
Proof.
  unfold has_id. induction rs as [|m rs IH]; simpl.
  - split; [tauto|reflexivity].
  - destruct (Z.eqb_spec (id m) i) as [E|E].
    + split; [discriminate|]. intros H. exfalso. apply (H m); auto.
    + rewrite IH. split.
      * intros H n [<-|Hin]; auto.
      * intros H n Hin. apply H. auto.
Qed.

Lemma find_app_fresh (i : Z) (rs : list Note) (r : Note) :
  (forall n, In n rs -> id n <> i) -> id r = i ->
  find (has_id i) (rs ++ [r]) = Some r.
Proof.
  intros Hfresh Hr. induction rs as [|m rs IH]; simpl.
  - unfold has_id. rewrite Hr, Z.eqb_refl. reflexivity.
  - unfold has_id at 1. destruct (Z.eqb_spec (id m) i) as [E|E].
    + exfalso. apply (Hfresh m); simpl; auto.
    + apply IH. intros n Hin. apply Hfresh. simpl; auto.
Qed.

Lemma find_update_rows (i : Z) (f : Note -> Note) (rs : list Note) :
  (forall n, id (f n) = id n) ->
  find (has_id i) (update_rows (has_id i) f rs)
  = option_map f (find (has_id i) rs).
Proof.
  intros Hf. induction rs as [|m rs IH]; simpl; [reflexivity|].
  destruct (has_id i m) eqn:E.
  - unfold has_id in *. rewrite Hf, E. reflexivity.
  - rewrite E. exact IH.
Qed.

Lemma count_rows_zero_iff (p : Note -> bool) (rs : list Note) :
  count_rows p rs = O <-> find p rs = None.
Proof.
  unfold count_rows. induction rs as [|m rs IH]; simpl; [tauto|].
  destruct (p m); simpl; [split; discriminate|exact IH].
Qed.

Lemma filter_no_hit (p : Note -> bool) (rs : list Note) :
  find p rs = None -> filter (fun n => negb (p n)) rs = rs.
Proof.
  induction rs as [|m rs IH]; simpl; [reflexivity|].
  destruct (p m); simpl; [discriminate|]. intros H. now rewrite IH.
Qed.

Lemma find_filter_out (i : Z) (rs : list Note) :
  find (has_id i) (filter (fun n => negb (has_id i n)) rs) = None.
Proof.
  induction rs as [|m rs IH]; simpl; [reflexivity|].
  destruct (has_id i m) eqn:E; simpl; [exact IH|]. now rewrite E.
Qed.

Lemma map_id_update_rows (p : Note -> bool) (f : Note -> Note) (rs : list Note) :
  (forall n, id (f n) = id n) ->
  map id (update_rows p f rs) = map id rs.
Proof.
  intros Hf. unfold update_rows. rewrite map_map. apply map_ext.
  intros n. destruct (p n); auto.
Qed.

(** ** Adding a note *)

(** C5. For every title and content, [addNote] returns the row it persisted,
    with the id the engine assigned; reading that id back gives the same row,
    which holds the given title and content, is pending, and has equal
    creation and update times. *)
Theorem addNote_returns_persisted_row :
  forall (now : timestamp) (t : string) (c : option string) (db : Db),
  exists n,
    addNote now (Some t) c db
    = (Ok (Some n), {| rows := rows db ++ [n]; seq := id n |})
    /\ getNoteById (id n) (snd (addNote now (Some t) c db)) = Some n
    /\ id n = next_rowid db
    /\ title n = t
    /\ content n = c
    /\ sync_status n = Pending
    /\ created_at n = updated_at n
    /\ created_at n = now.
Proof.
  intros now t c db.
  set (n := mkNote (next_rowid db) t c now now None Pending).
  assert (Hget : getNoteById (next_rowid db)
                   {| rows := rows db ++ [n]; seq := next_rowid db |} = Some n).
  { unfold getNoteById; simpl. apply find_app_fresh; [|reflexivity].
    intros m Hm. apply next_rowid_fresh in Hm. lia. }
  assert (Hrun : addNote now (Some t) c db
                 = (Ok (Some n), {| rows := rows db ++ [n]; seq := id n |})).
  { unfold addNote, bind, stmt, read; simpl. fold n. now rewrite Hget. }
  exists n. rewrite Hrun. simpl. repeat split; auto.
Qed.

(** ** Missing ids and deletion *)

(** C8. For an id with no row, [getNoteById] gives the absent value,
    [updateNote] returns absent and [deleteNote] returns false, none of them
    raising and none of them changing the table; and deleting an id that has
    a row returns true, after which the id has no row, and a second delete
    of the same id returns false and leaves the table as the first left
    it. *)
Theorem missing_id_is_reported_not_raised :
  forall (now : timestamp) (i : Z) (t c : option string) (db : Db),
    ((forall n, In n (rows db) -> id n <> i) ->
       getNoteById i db = None
       /\ updateNote now i t c db = (Ok None, db)
       /\ deleteNote i db = (Ok false, db))
    /\ ((exists n, In n (rows db) /\ id n = i) ->
          exists db1,
            deleteNote i db = (Ok true, db1)
            /\ (forall n, In n (rows db1) -> id n <> i)
            /\ getNoteById i db1 = None
            /\ deleteNote i db1 = (Ok false, db1)).
Proof.
  intros now i t c db.
  assert (Hdel0 : forall d, getNoteById i d = None ->
                            deleteNote i d = (Ok false, d)).
  { intros d Hnone. unfold getNoteById in Hnone.
    unfold deleteNote, bind, stmt, sql_delete, ret.
    rewrite (filter_no_hit _ _ Hnone).
    apply count_rows_zero_iff in Hnone. rewrite Hnone. simpl.
    now destruct d. }
  split.
  - intros Hnone%find_none_iff. split; [exact Hnone|].
    split; [|now apply Hdel0].
    pose proof (proj2 (count_rows_zero_iff _ _) Hnone) as Hcount.
    unfold updateNote, bind, stmt, sql_update, ret. rewrite Hcount.
    destruct t as [t'|]; simpl; [|reflexivity].
    f_equal. destruct db as [rs s]; simpl in *. f_equal.
    clear Hcount Hdel0. induction rs as [|m rs IH]; simpl in *; [reflexivity|].
    destruct (has_id i m); [discriminate|]. now rewrite IH.
  - intros (n & Hin & Hn).
    exists {| rows := filter (fun n => negb (has_id i n)) (rows db);
              seq := seq db |}.
    assert (Hgone : getNoteById i
              {| rows := filter (fun n => negb (has_id i n)) (rows db);
                 seq := seq db |} = None)
      by apply find_filter_out.
    split; [|split; [|split; [exact Hgone|now apply Hdel0]]].
    + unfold deleteNote, bind, stmt, sql_delete, ret.
      destruct (count_rows (has_id i) (rows db)) eqn:Hc; [|reflexivity].
      apply count_rows_zero_iff in Hc.
      now elim (proj1 (find_none_iff i (rows db)) Hc n Hin).
    + now apply find_none_iff.
Qed.

Lemma missing_id_witness :
  (getNoteById 9 demo_db = None
   /\ updateNote 40 9 (Some "t"%string) None demo_db = (Ok None, demo_db)
   /\ deleteNote 9 demo_db = (Ok false, demo_db))
  /\ exists db1,
       deleteNote 2 demo_db = (Ok true, db1)
       /\ (forall n, In n (rows db1) -> id n <> 2)
       /\ getNoteById 2 db1 = None
       /\ deleteNote 2 db1 = (Ok false, db1).
Proof.
  split.
  - apply (proj1 (missing_id_is_reported_not_raised
                    40 9 (Some "t"%string) None demo_db)).
    intros n [<-|[<-|[<-|[]]]]; discriminate.
  - apply (proj2 (missing_id_is_reported_not_raised 40 2 None None demo_db)).
    exists (demo_note 2 "b" 30 Pending). split; [simpl; auto|reflexivity].
Defined.

(** ** Bulk insert *)

Lemma insertMany_ok (clock : nat -> timestamp) (inputs : list NoteInput) :
  forall (ids : list Z) (db : Db) (out : list Z) (db' : Db),
    insertMany clock inputs ids db = (Ok out, db') ->
    exists new,
      out = ids ++ map id new
      /\ rows db' = rows db ++ new
      /\ Forall2 row_of_input inputs new
      /\ StronglySorted Z.lt (map id new)
      /\ Forall (fun r => next_rowid db <= id r) new.
Proof.
  induction inputs as [|inp rest IH]; intros ids db out db' Hrun.
  - injection Hrun as <- <-. exists []. simpl.
    rewrite !app_nil_r. repeat split; constructor.
  - simpl in Hrun. unfold bind, stmt, sql_insert in Hrun.
    destruct (in_title inp) as [t|] eqn:Ht; [|discriminate].
    set (r := mkNote (next_rowid db) t
                (Some (content_or_empty (in_content inp)))
                (clock (List.length ids)) (clock (List.length ids))
                None Pending) in Hrun.
    apply IH in Hrun. destruct Hrun as (new & -> & Hrows & Hall & Hsorted & Hlow).
    simpl in Hrows.
    assert (Hnext : next_rowid db
                    < next_rowid {| rows := rows db ++ [r]; seq := next_rowid db |}).
    { unfold next_rowid at 2. simpl. lia. }
    exists (r :: new). simpl. repeat split.
    + now rewrite <- app_assoc.
    + now rewrite Hrows, <- app_assoc.
    + constructor; [|exact Hall]. unfold row_of_input. simpl. auto.
    + constructor; [exact Hsorted|].
      rewrite Forall_map. eapply Forall_impl; [|exact Hlow].
      simpl. intros a Ha. lia.
    + constructor; [simpl; lia|].
      eapply Forall_impl; [|exact Hlow]. simpl. intros a Ha. lia.
Qed.

Lemma insertMany_raises (clock : nat -> timestamp) (inputs : list NoteInput) :
  forall (ids : list Z) (db : Db) (e : string) (db' : Db),
    insertMany clock inputs ids db = (Raise e, db') ->
    Exists (fun inp => in_title inp = None) inputs.
Proof.
  induction inputs as [|inp rest IH]; intros ids db e db' Hrun.
  - discriminate.
  - simpl in Hrun. unfold bind, stmt, sql_insert in Hrun.
    destruct (in_title inp) as [t|] eqn:Ht.
    + apply Exists_cons_tl. eapply IH. exact Hrun.
    + now apply Exists_cons_hd.
Qed.

Lemma StronglySorted_lt_NoDup (l : list Z) : StronglySorted Z.lt l -> NoDup l.
Proof.
  induction 1 as [|a l Hs IH Hall]; constructor; [|exact IH].
  intros Hin. rewrite Forall_forall in Hall. specialize (Hall a Hin). lia.
Qed.

(** C1. [addNotesBulk] runs all its inserts in one transaction.  When it
    returns, it returns one id per input element, all distinct and in input
    order (the k-th id is the id of the row made from the k-th element), the
    table is the old table followed by exactly those new rows, and none of
    the new ids was in the table before.  When the engine raises on an
    element (a title that is null violates NOT NULL), the call raises and the
    table is exactly the table before the call. *)
Theorem addNotesBulk_all_or_nothing :
  forall (clock : nat -> timestamp) (inputs : list NoteInput) (db : Db),
    match addNotesBulk clock inputs db with
    | (Ok ids, db') =>
        List.length ids = List.length inputs
        /\ NoDup ids
        /\ List.length (rows db') = (List.length (rows db) + List.length inputs)%nat
        /\ exists new,
             rows db' = rows db ++ new
             /\ map id new = ids
             /\ Forall2 row_of_input inputs new
             /\ Forall (fun r => forall n, In n (rows db) -> id n < id r) new
    | (Raise _, db') =>
        db' = db /\ Exists (fun inp => in_title inp = None) inputs
    end.
Proof.
  intros clock inputs db. unfold addNotesBulk, transaction.
  destruct (insertMany clock inputs [] db) as [[out|e] db'] eqn:Hrun.
  - apply insertMany_ok in Hrun.
    destruct Hrun as (new & -> & Hrows & Hall & Hsorted & Hlow). simpl.
    pose proof (Forall2_length Hall) as Hlen.
    repeat split.
    + now rewrite length_map.
    + now apply StronglySorted_lt_NoDup.
    + rewrite Hrows, length_app. lia.
    + exists new. repeat split; auto.
      eapply Forall_impl; [|exact Hlow]. simpl.
      intros r Hr n Hn. apply next_rowid_fresh in Hn. lia.
  - split; [reflexivity|]. eapply insertMany_raises. exact Hrun.
Qed.

(** Without the transaction around it, the loop would leave the rows it
    inserted before the failing element. *)
Example insertMany_alone_is_partial :
  let inputs := [mkInput (Some "a"%string) None; mkInput None None] in
  List.length (rows (snd (insertMany (fun _ => 5) inputs [] empty_db))) = 1%nat
  /\ snd (addNotesBulk (fun _ => 5) inputs empty_db) = empty_db.
Proof. split; reflexivity. Qed.

(** ** Sync status marking: what it leaves alone *)

Lemma Forall2_update_rows (P : Note -> Note -> Prop) (p : Note -> bool)
  (f : Note -> Note) (rs : list Note) :
  (forall n, P n (if p n then f n else n)) ->
  Forall2 P rs (update_rows p f rs).
Proof.
  intros H. induction rs as [|n rs IH]; simpl; constructor; auto.
Qed.

Lemma Forall2_same (P : Note -> Note -> Prop) (rs : list Note) :
  (forall n, P n n) -> Forall2 P rs rs.
Proof. intros H. induction rs; constructor; auto. Qed.

(** C9. [markNotesAsSynced] and [markNotesSyncError] keep the table's rows
    in place and change only sync bookkeeping: every row keeps its id, title,
    content, created_at and updated_at; a row whose id is not in the list is
    the same row afterwards; a row whose id is in the list gets its new
    status (and, for synced, the synced_at time; for error, synced_at is
    kept).  The id counter is untouched. *)
Theorem marking_changes_only_sync_fields :
  forall (now : timestamp) (ids : option (list Z)) (db : Db),
    let marked := snd (markNotesAsSynced now ids db) in
    let failed := snd (markNotesSyncError ids db) in
    seq marked = seq db
    /\ Forall2 (fun n n' =>
                  same_text n n'
                  /\ if targeted ids n
                     then sync_status n' = Synced /\ synced_at n' = Some now
                     else n' = n)
               (rows db) (rows marked)
    /\ seq failed = seq db
    /\ Forall2 (fun n n' =>
                  same_text n n'
                  /\ synced_at n' = synced_at n
                  /\ if targeted ids n
                     then sync_status n' = SyncError
                     else n' = n)
               (rows db) (rows failed).
Proof.
  intros now ids db. unfold same_text.
  destruct ids as [[|i l]|];
    cbv [markNotesAsSynced markNotesSyncError stmt ret sql_mark_synced
         sql_mark_error fst snd rows seq targeted];
    repeat split;
    try (apply Forall2_same; intros n; repeat split; reflexivity);
    apply Forall2_update_rows; intros n;
    destruct (id_in (i :: l) n); simpl; repeat split; reflexivity.
Qed.

(** ** Statistics *)

Lemma count_rows_has_status (s : SyncStatus) (rs : list Note) :
  count_rows (has_status s) rs
  = count_occ SyncStatus_eq_dec (map sync_status rs) s.
Proof.
  unfold count_rows, has_status.
  induction rs as [|n rs IH]; simpl; [reflexivity|].
  destruct (SyncStatus_eq_dec (sync_status n) s) as [E|E].
  - rewrite E. destruct s; simpl; f_equal; exact IH.
  - destruct (sync_status n), s; simpl; try exact IH; now elim E.
Qed.

Lemma status_partition (l : list SyncStatus) :
  List.length l
  = (count_occ SyncStatus_eq_dec l Pending
     + count_occ SyncStatus_eq_dec l Synced
     + count_occ SyncStatus_eq_dec l SyncError)%nat.
Proof.
  induction l as [|s l IH]; simpl; [reflexivity|].
  destruct s; simpl; lia.
Qed.

(** C10. [getStats] reports the number of all notes as [total], the number
    of pending notes as [pending] and the number of synced notes as
    [synced]; notes in error are in [total] only, so [total] is [pending]
    plus [synced] plus the number of notes in error. *)
Theorem getStats_counts :
  forall (db : Db),
    total (getStats db) = List.length (rows db)
    /\ pending (getStats db) = notes_with_status Pending db
    /\ synced (getStats db) = notes_with_status Synced db
    /\ total (getStats db)
       = (pending (getStats db) + synced (getStats db)
          + notes_with_status SyncError db)%nat.
Proof.
  intros db. unfold getStats, notes_with_status. simpl.
  rewrite !count_rows_has_status.
  repeat split. rewrite <- (length_map sync_status (rows db)).
  apply status_partition.
Qed.

(** ** Ordering *)

Section OrderBy.
Variable le : Note -> Note -> bool.
Hypothesis le_total : forall a b, le a b = true \/ le b a = true.
Hypothesis le_trans :
  forall a b c, le a b = true -> le b c = true -> le a c = true.

Lemma insert_by_perm (x : Note) (l : list Note) :
  Permutation (insert_by le x l) (x :: l).
Proof.
  induction l as [|y l IH]; simpl; [reflexivity|].
  destruct (le x y); [reflexivity|].
  rewrite IH. apply perm_swap.
Qed.

Lemma order_by_perm (l : list Note) : Permutation (order_by le l) l.
Proof.
  induction l as [|x l IH]; simpl; [reflexivity|].
  rewrite insert_by_perm. now constructor.
Qed.

Lemma insert_by_sorted (x : Note) (l : list Note) :
  StronglySorted (fun a b => le a b = true) l ->
  StronglySorted (fun a b => le a b = true) (insert_by le x l).
Proof.
  induction 1 as [|y l Hs IH Hall]; simpl.
  - repeat constructor.
  - destruct (le x y) eqn:E.
    + constructor; [now constructor|].
      constructor; [exact E|].
      eapply Forall_impl; [|exact Hall]. intros a Ha. eauto.
    + constructor; [exact IH|].
      rewrite (insert_by_perm x l). constructor; [|exact Hall].
      destruct (le_total x y) as [H|H]; congruence.
Qed.

Lemma order_by_sorted (l : list Note) :
  StronglySorted (fun a b => le a b = true) (order_by le l).
Proof.
  induction l as [|x l IH]; simpl; [constructor|].
  now apply insert_by_sorted.
Qed.
End OrderBy.

Lemma StronglySorted_weaken (R R' : Note -> Note -> Prop) (l : list Note) :
  (forall a b, R a b -> R' a b) -> StronglySorted R l -> StronglySorted R' l.
Proof.
  intros HR. induction 1 as [|a l Hs IH Hall]; constructor; [exact IH|].
  eapply Forall_impl; [|exact Hall]. auto.
Qed.

Lemma order_by_key_ascending (key : Note -> Z) (l : list Note) :
  StronglySorted (fun a b => key a <= key b)
                 (order_by (fun a b => key a <=? key b) l).
Proof.
  apply StronglySorted_weaken with (R := fun a b => (key a <=? key b) = true).
  - intros a b. apply Z.leb_le.
  - apply order_by_sorted.
    + intros a b. rewrite !Z.leb_le. lia.
    + intros a b c. rewrite !Z.leb_le. lia.
Qed.

Lemma order_by_key_descending (key : Note -> Z) (l : list Note) :
  StronglySorted (fun a b => key b <= key a)
                 (order_by (fun a b => key b <=? key a) l).
Proof.
  apply StronglySorted_weaken with (R := fun a b => (key b <=? key a) = true).
  - intros a b. apply Z.leb_le.
  - apply order_by_sorted.
    + intros a b. rewrite !Z.leb_le. lia.
    + intros a b c. rewrite !Z.leb_le. lia.
Qed.

(** ** Listing with an unknown sort column *)

Lemma array_includes_In (l : list string) (x : string) :
  array_includes l x = true <-> In x l.
Proof.
  unfold array_includes. rewrite existsb_exists. split.
  - intros (y & Hy & E). apply String.eqb_eq in E. now subst.
  - intros H. exists x. split; [exact H|apply String.eqb_refl].
Qed.

(** C7. For a sort column outside the allow-list and any order string,
    [getNotes] does not raise; it returns all the notes of the table, sorted
    on created_at: ascending when the uppercased order string is ASC, and
    descending for every other order string. *)
Theorem getNotes_unknown_column_falls_back :
  forall (toUpperCase : string -> string) (sortBy order : string) (db : Db),
    ~ In sortBy allowedColumns ->
    exists result,
      getNotes toUpperCase sortBy order db = Ok result
      /\ getNotes toUpperCase sortBy order db
         = getNotes toUpperCase "created_at" order db
      /\ Permutation result (rows db)
      /\ if (toUpperCase order =? "ASC")%string
         then StronglySorted (fun a b => created_at a <= created_at b) result
         else StronglySorted (fun a b => created_at b <= created_at a) result.
Proof.
  intros toUpperCase sortBy order db Hout.
  assert (Hno : array_includes allowedColumns sortBy = false).
  { destruct (array_includes allowedColumns sortBy) eqn:E; [|reflexivity].
    apply array_includes_In in E. contradiction. }
  unfold getNotes. rewrite Hno.
  change (array_includes allowedColumns "created_at") with true. cbv iota.
  destruct (toUpperCase order =? "ASC")%string;
    cbv [sql_select_ordered column_le String.eqb Ascii.eqb Bool.eqb];
    eexists; (split; [reflexivity|]); (split; [reflexivity|]); split.
  - apply order_by_perm.
  - apply order_by_key_ascending.
  - apply order_by_perm.
  - apply order_by_key_descending.
Qed.

Lemma getNotes_unknown_column_witness :
  getNotes toUpperCase_ascii "not_a_column" "sideways" demo_db
  = Ok [demo_note 2 "b" 30 Pending;
        demo_note 3 "c" 20 Pending;
        demo_note 1 "a" 10 Pending]
  /\ getNotes toUpperCase_ascii "not_a_column" "Asc" demo_db
     = Ok [demo_note 1 "a" 10 Pending;
           demo_note 3 "c" 20 Pending;
           demo_note 2 "b" 30 Pending]
  /\ exists result,
       getNotes toUpperCase_ascii "not_a_column" "sideways" demo_db = Ok result
       /\ getNotes toUpperCase_ascii "not_a_column" "sideways" demo_db
          = getNotes toUpperCase_ascii "created_at" "sideways" demo_db
       /\ Permutation result (rows demo_db)
       /\ if (toUpperCase_ascii "sideways" =? "ASC")%string
          then StronglySorted (fun a b => created_at a <= created_at b) result
          else StronglySorted (fun a b => created_at b <= created_at a) result.
Proof.
  split; [reflexivity|]. split; [reflexivity|].
  apply (getNotes_unknown_column_falls_back toUpperCase_ascii
           "not_a_column" "sideways" demo_db).
  simpl. intros [H|[H|[H|[H|[]]]]]; discriminate H.
Defined.

(** ** Search *)

Lemma like_percent (p s : list ascii) :
  like_chars ("%"%char :: p) s = skip_any p s.
Proof.
  induction s as [|d s IH]; [reflexivity|].
  simpl in *. now rewrite IH.
Qed.

Lemma like_plain (c : ascii) (p s : list ascii) :
  is_wildcard c = false ->
  like_chars (c :: p) s
  = match s with
    | [] => false
    | d :: s' => (lower_ascii c =? lower_ascii d)%char && like_chars p s'
    end.
Proof.
  unfold is_wildcard. intros H. apply orb_false_iff in H as [H1 H2].
  destruct s as [|d s]; simpl; rewrite H1; [reflexivity|].
  now rewrite H2.
Qed.

Lemma skip_any_iff (p s : list ascii) :
  skip_any p s = true
  <-> exists pre post, s = pre ++ post /\ like_chars p post = true.
Proof.
  induction s as [|d s IH]; simpl.
  - rewrite orb_false_r. split.
    + intros H. now exists [], [].
    + intros (pre & post & E & H). symmetry in E.
      apply app_eq_nil in E as [_ ->]. exact H.
  - rewrite orb_true_iff, IH. split.
    + intros [H|(pre & post & -> & H)].
      * now exists [], (d :: s).
      * now exists (d :: pre), post.
    + intros ([|d' pre] & post & E & H); simpl in E.
      * left. now subst.
      * right. injection E as _ ->. now exists pre, post.
Qed.

Lemma like_starts_with (q : list ascii) :
  Forall (fun c => is_wildcard c = false) q ->
  forall s,
    like_chars (q ++ ["%"%char]) s = true
    <-> exists mid post,
          s = mid ++ post /\ map lower_ascii mid = map lower_ascii q.
Proof.
  induction 1 as [|c q Hc Hq IH]; intros s; simpl app.
  - rewrite like_percent. split.
    + intros _. now exists [], s.
    + intros _. clear. induction s as [|d s IH]; simpl; auto.
  - rewrite (like_plain _ _ _ Hc). destruct s as [|d s].
    + split; [discriminate|].
      intros ([|m mid] & post & E & Hm); discriminate.
    + rewrite andb_true_iff, IH, Ascii.eqb_eq. split.
      * intros (Hcd & mid & post & -> & Hm).
        exists (d :: mid), post. simpl. split; [reflexivity|]. congruence.
      * intros ([|m mid] & post & E & Hm); [discriminate|].
        simpl in E, Hm. injection E as -> ->. injection Hm as Hcd Hm.
        split; [congruence|]. now exists mid, post.
Qed.

Lemma list_ascii_of_string_app (a b : string) :
  list_ascii_of_string (a ++ b)
  = list_ascii_of_string a ++ list_ascii_of_string b.
Proof. induction a as [|c a IH]; simpl; [reflexivity|]. now rewrite IH. Qed.

Lemma sql_like_contains (text query : string) :
  no_wildcard query ->
  sql_like text ("%" ++ query ++ "%") = true <-> contains_nocase text query.
Proof.
  intros Hq. unfold sql_like, contains_nocase.
  change ("%" ++ query ++ "%")%string with (String "%" (query ++ "%")).
  cbn [list_ascii_of_string]. rewrite list_ascii_of_string_app.
  cbn [list_ascii_of_string]. rewrite like_percent, skip_any_iff.
  split.
  - intros (pre & rest & E & H). apply (like_starts_with _ Hq) in H.
    destruct H as (mid & post & -> & Hm). now exists pre, mid, post.
  - intros (pre & mid & post & E & Hm). exists pre, (mid ++ post).
    split; [exact E|]. apply (like_starts_with _ Hq). now exists mid, post.
Qed.

Lemma search_hit_matches (query : string) (n : Note) :
  no_wildcard query ->
  search_hit ("%" ++ query ++ "%") n = true <-> matches_query query n.
Proof.
  intros Hq. unfold search_hit, matches_query.
  rewrite orb_true_iff, (sql_like_contains _ _ Hq).
  destruct (content n) as [c|].
  - rewrite (sql_like_contains _ _ Hq). split.
    + intros [H|H]; [now left|right; now exists c].
    + intros [H|(c' & E & H)]; [now left|right; congruence].
  - split.
    + intros [H|H]; [now left|discriminate].
    + intros [H|(c' & E & H)]; [now left|discriminate].
Qed.

Lemma contains_nocase_empty (text : string) : contains_nocase text "".
Proof. now exists [], [], (list_ascii_of_string text). Qed.

Lemma filter_all (p : Note -> bool) (rs : list Note) :
  (forall n, In n rs -> p n = true) -> filter p rs = rs.
Proof.
  induction rs as [|n rs IH]; simpl; intros H; [reflexivity|].
  rewrite (H n), IH; auto.
Qed.

Lemma filter_none (p : Note -> bool) (rs : list Note) :
  (forall n, In n rs -> p n <> true) -> filter p rs = [].
Proof.
  induction rs as [|n rs IH]; simpl; intros H; [reflexivity|].
  destruct (p n) eqn:E; [now elim (H n (or_introl eq_refl))|]. auto.
Qed.

(** C6, as the code has it.  For a query with no [%] and no [_],
    [searchNotes] returns exactly the notes whose title or content contains
    the query as a substring up to ASCII letter case (each as often as the
    table holds it), ordered by created_at descending; the empty query
    returns every note, and a query that no note matches returns the empty
    list. *)
Theorem searchNotes_substring_nocase :
  forall (query : string) (db : Db),
    no_wildcard query ->
    (forall n, search_hit ("%" ++ query ++ "%") n = true
               <-> matches_query query n)
    /\ Permutation (searchNotes query db)
                   (filter (search_hit ("%" ++ query ++ "%")) (rows db))
    /\ (forall n, In n (searchNotes query db)
                  <-> In n (rows db) /\ matches_query query n)
    /\ StronglySorted (fun a b => created_at b <= created_at a)
                      (searchNotes query db)
    /\ (query = EmptyString -> Permutation (searchNotes query db) (rows db))
    /\ ((forall n, In n (rows db) -> ~ matches_query query n) ->
        searchNotes query db = []).
Proof.
  intros query db Hq.
  assert (Hperm : Permutation (searchNotes query db)
                    (filter (search_hit ("%" ++ query ++ "%")) (rows db)))
    by apply order_by_perm.
  split; [intros n; now apply search_hit_matches|].
  split; [exact Hperm|].
  split; [|split; [apply order_by_key_descending|split]].
  - intros n. rewrite <- (search_hit_matches _ _ Hq), <- filter_In. split.
    + apply Permutation_in. exact Hperm.
    + apply Permutation_in. symmetry. exact Hperm.
  - intros ->. rewrite Hperm, filter_all; [reflexivity|].
    intros n _. apply search_hit_matches; [constructor|].
    left. apply contains_nocase_empty.
  - intros Hnone. unfold searchNotes. rewrite filter_none; [reflexivity|].
    intros n Hin Hhit. apply (Hnone n Hin).
    now apply search_hit_matches.
Qed.

Lemma searchNotes_substring_nocase_witness :
  no_wildcard "B"
  /\ searchNotes "B" demo_db = [demo_note 2 "b" 30 Pending]
  /\ (forall n, In n (searchNotes "B" demo_db)
                <-> In n (rows demo_db) /\ matches_query "B" n)
  /\ Permutation (searchNotes "" demo_db) (rows demo_db).
Proof.
  assert (Hq : no_wildcard "B") by (repeat constructor).
  split; [exact Hq|]. split; [reflexivity|].
  pose proof (searchNotes_substring_nocase "B" demo_db Hq)
    as (_ & _ & Hin & _).
  pose proof (searchNotes_substring_nocase "" demo_db (Forall_nil _))
    as (_ & _ & _ & _ & Hall & _).
  split; [exact Hin|exact (Hall eq_refl)].
Defined.

Lemma not_contains_a (query : string) :
  query <> "a"%string -> query <> EmptyString -> ~ contains "a" query.
Proof.
  intros Ha He (pre & post & E).
  destruct pre as [|c pre]; simpl in E.
  - destruct query as [|d query]; [now elim He|]. simpl in E.
    injection E as <- E. destruct query; [|discriminate]. now elim Ha.
  - injection E as _ E. destruct pre; [|discriminate].
    destruct query; [now elim He|discriminate].
Qed.

(** C6 as stated fails: the query [_] finds the note titled [a], and so does
    the query [A], though neither is a substring of its title or content. *)
Lemma searchNotes_literal_counterexample :
  (In (demo_note 1 "a" 10 Pending) (searchNotes "_" wildcard_db)
   /\ ~ matches_literally "_" (demo_note 1 "a" 10 Pending))
  /\ (In (demo_note 1 "a" 10 Pending) (searchNotes "A" wildcard_db)
      /\ ~ matches_literally "A" (demo_note 1 "a" 10 Pending))
  /\ ~ (forall query db n,
          In n (searchNotes query db)
          <-> In n (rows db) /\ matches_literally query n).
Proof.
  assert (Hno : forall q : string,
             q <> "a"%string -> q <> EmptyString ->
             ~ matches_literally q (demo_note 1 "a" 10 Pending)).
  { intros q Ha He [H|(c & E & H)].
    - now apply (not_contains_a q Ha He).
    - simpl in E. injection E as <-. destruct H as (pre & post & E).
      destruct pre; [|discriminate]. destruct q; [now elim He|discriminate]. }
  assert (H1 : ~ matches_literally "_" (demo_note 1 "a" 10 Pending))
    by (apply Hno; discriminate).
  assert (H2 : ~ matches_literally "A" (demo_note 1 "a" 10 Pending))
    by (apply Hno; discriminate).
  split; [split; [left; reflexivity|exact H1]|].
  split; [split; [left; reflexivity|exact H2]|].
  intros Hclaim. apply H1.
  apply (Hclaim "_"%string wildcard_db (demo_note 1 "a" 10 Pending)).
  left; reflexivity.
Qed.

(** ** The states the module can reach *)

Lemma db_inv_later (t t' : timestamp) (db : Db) :
  db_inv t db -> t <= t' -> db_inv t' db.
Proof.
  intros (Hnd & Hall & Hs) Hle. repeat split; auto.
  eapply Forall_impl; [|exact Hall]. unfold row_ok. intros n. lia.
Qed.

Lemma preserves_ret {A : Type} (now : timestamp) (a : A) :
  preserves now (ret a).
Proof. intros db H. exact H. Qed.

Lemma preserves_read {A : Type} (now : timestamp) (q : Db -> A) :
  preserves now (read q).
Proof. intros db H. exact H. Qed.

Lemma preserves_raise {A : Type} (now : timestamp) (m : string) :
  preserves now (@raise A m).
Proof. intros db H. exact H. Qed.

Lemma preserves_bind {A B : Type} (now : timestamp) (m : Op A) (k : A -> Op B) :
  preserves now m -> (forall a, preserves now (k a)) ->
  preserves now (bind m k).
Proof.
  intros Hm Hk db H. unfold bind. specialize (Hm db H).
  destruct (m db) as [[a|e] db']; simpl in *; [|exact Hm].
  now apply Hk.
Qed.

Lemma preserves_stmt {A : Type} (now : timestamp) (s : Db -> Result (A * Db)) :
  (forall db a db', db_inv now db -> s db = Ok (a, db') -> db_inv now db') ->
  preserves now (stmt s).
Proof.
  intros Hs db H. unfold stmt.
  destruct (s db) as [[a db']|e] eqn:E; simpl; [|exact H]. eauto.
Qed.

Lemma preserves_transaction {A : Type} (now : timestamp) (fn : Op A) :
  preserves now fn -> preserves now (transaction fn).
Proof.
  intros Hfn db H. unfold transaction. specialize (Hfn db H).
  destruct (fn db) as [[a|e] db']; simpl in *; auto.
Qed.

Lemma sql_insert_inv (T now : timestamp) (t c : option string) (db : Db)
  (i : Z) (db' : Db) :
  now <= T -> db_inv T db -> sql_insert now t c db = Ok (i, db') ->
  db_inv T db'.
Proof.
  intros Hle (Hnd & Hall & Hs) Hrun. unfold sql_insert in Hrun.
  destruct t as [t'|]; [|discriminate]. injection Hrun as <- <-.
  pose proof (max_rowid_nonneg (rows db)) as Hmax.
  assert (Hfresh : forall n, In n (rows db) -> id n < next_rowid db)
    by (intros n; apply next_rowid_fresh).
  unfold db_inv; simpl. repeat split.
  - rewrite map_app. simpl.
    apply (Permutation_NoDup (Permutation_cons_append _ _)).
    constructor; [|exact Hnd].
    rewrite in_map_iff. intros (n & E & Hin). apply Hfresh in Hin. lia.
  - apply Forall_app. split.
    + rewrite Forall_forall in *. intros n Hin.
      specialize (Hall n Hin). specialize (Hfresh n Hin).
      unfold row_ok in *. lia.
    + repeat constructor; simpl; unfold next_rowid; lia.
  - unfold next_rowid. lia.
Qed.

Lemma update_rows_inv (T : timestamp) (p : Note -> bool) (f : Note -> Note)
  (db : Db) :
  (forall n, id (f n) = id n) ->
  (forall n, row_ok T (seq db) n -> row_ok T (seq db) (f n)) ->
  db_inv T db ->
  db_inv T {| rows := update_rows p f (rows db); seq := seq db |}.
Proof.
  intros Hid Hok (Hnd & Hall & Hs). unfold db_inv; simpl. repeat split; auto.
  - now rewrite map_id_update_rows.
  - unfold update_rows. rewrite Forall_map.
    eapply Forall_impl; [|exact Hall]. intros n Hn. destruct (p n); auto.
Qed.

Lemma NoDup_map_filter (p : Note -> bool) (rs : list Note) :
  NoDup (map id rs) -> NoDup (map id (filter p rs)).
Proof.
  induction rs as [|n rs IH]; simpl; intros H; [constructor|].
  inversion H as [|? ? Hnotin Hrest]; subst.
  destruct (p n); simpl; auto.
  constructor; auto. rewrite in_map_iff in *.
  intros (m & E & Hin). apply Hnotin. exists m.
  apply filter_In in Hin. tauto.
Qed.

Lemma sql_delete_inv (T : timestamp) (i : Z) (db : Db) (k : nat) (db' : Db) :
  db_inv T db -> sql_delete i db = Ok (k, db') -> db_inv T db'.
Proof.
  intros (Hnd & Hall & Hs) Hrun. injection Hrun as _ <-.
  unfold db_inv; simpl. repeat split; auto.
  - now apply NoDup_map_filter.
  - rewrite Forall_forall in *. intros n Hin.
    apply filter_In in Hin. apply Hall. tauto.
Qed.

Lemma sql_update_inv (T : timestamp) (t c : option string) (i : Z) (db : Db)
  (k : nat) (db' : Db) :
  db_inv T db -> sql_update T t c i db = Ok (k, db') -> db_inv T db'.
Proof.
  intros Hinv Hrun. unfold sql_update in Hrun. destruct t as [t'|].
  - injection Hrun as _ <-. apply update_rows_inv; auto.
    unfold row_ok. simpl. intros n. lia.
  - destruct (count_rows (has_id i) (rows db) =? 0)%nat; [|discriminate].
    now injection Hrun as _ <-.
Qed.

Lemma addNote_preserves (T now : timestamp) (t c : option string) :
  now <= T -> preserves T (addNote now t c).
Proof.
  intros Hle. apply preserves_bind.
  - apply preserves_stmt. intros db a db' H E.
    eapply sql_insert_inv; eauto.
  - intros a. apply preserves_read.
Qed.

Lemma updateNote_preserves (T : timestamp) (i : Z) (t c : option string) :
  preserves T (updateNote T i t c).
Proof.
  apply preserves_bind.
  - apply preserves_stmt. intros db a db' H E.
    eapply sql_update_inv; eauto.
  - intros a. destruct (a =? 0)%nat;
      [apply preserves_ret|apply preserves_read].
Qed.

Lemma deleteNote_preserves (T : timestamp) (i : Z) :
  preserves T (deleteNote i).
Proof.
  apply preserves_bind.
  - apply preserves_stmt. intros db a db' H E.
    eapply sql_delete_inv; eauto.
  - intros a. apply preserves_ret.
Qed.

Lemma insertMany_preserves (T : timestamp) (clock : nat -> timestamp)
  (inputs : list NoteInput) :
  (forall k, clock k <= T) ->
  forall ids, preserves T (insertMany clock inputs ids).
Proof.
  intros Hclock. induction inputs as [|inp rest IH]; intros ids; simpl.
  - apply preserves_ret.
  - apply preserves_bind; [|intros a; apply IH].
    apply preserves_stmt. intros db a db' H E.
    eapply sql_insert_inv; eauto.
Qed.

Lemma markNotesAsSynced_preserves (T now : timestamp) (ids : option (list Z)) :
  preserves T (markNotesAsSynced now ids).
Proof.
  destruct ids as [[|i l]|]; simpl; try apply preserves_ret.
  apply preserves_stmt. intros db a db' H E. injection E as _ <-.
  apply update_rows_inv; auto.
Qed.

Lemma markNotesSyncError_preserves (T : timestamp) (ids : option (list Z)) :
  preserves T (markNotesSyncError ids).
Proof.
  destruct ids as [[|i l]|]; simpl; try apply preserves_ret.
  apply preserves_stmt. intros db a db' H E. injection E as _ <-.
  apply update_rows_inv; auto.
Qed.

Lemma after_fetch_preserves (T now : timestamp) (outcome : FetchOutcome) :
  preserves T (after_fetch now outcome).
Proof.
  destruct outcome as [m|response]; simpl; [apply preserves_raise|].
  destruct (negb (ok response)); [apply preserves_raise|].
  destruct (json response) as [m| |syncedIds failedIds];
    try apply preserves_raise.
  apply preserves_bind.
  - destruct (non_empty syncedIds);
      [apply markNotesAsSynced_preserves|apply preserves_ret].
  - intros _. apply preserves_bind.
    + destruct (non_empty failedIds);
        [apply markNotesSyncError_preserves|apply preserves_ret].
    + intros _. apply preserves_ret.
Qed.

Lemma sync_cycle_preserves (T now : timestamp) (fetch : Request -> FetchOutcome)
  (apiUrl : string) (db : Db) :
  db_inv T db -> db_inv T (snd (sync_cycle fetch now apiUrl db)).
Proof.
  intros H. unfold sync_cycle, syncWithBackend.
  destruct (List.length (getNotesToSync db) =? 0)%nat; [exact H|].
  unfold try_catch.
  pose proof (after_fetch_preserves T now
                (fetch {| url := (apiUrl ++ "/api/sync")%string;
                          method := "POST"%string;
                          notes := map to_wire (getNotesToSync db) |}) db H) as Hp.
  destruct (after_fetch now _ db) as [[r|m] db']; exact Hp.
Qed.

Lemma reachable_inv (t : timestamp) (db : Db) : reachable t db -> db_inv t db.
Proof.
  induction 1 as [t|t t' db _ IH Hle|t db tt c _ IH|t db i tt c _ IH
                 |t db i _ IH|t t' db clock inputs _ IH Hclock
                 |t db ids _ IH|t db ids _ IH|t db fetch apiUrl _ IH].
  - repeat split; simpl; try constructor. lia.
  - eapply db_inv_later; eauto.
  - apply addNote_preserves; [lia|exact IH].
  - apply updateNote_preserves; exact IH.
  - apply deleteNote_preserves; exact IH.
  - apply preserves_transaction.
    + apply insertMany_preserves. intros k. apply Hclock.
    + apply (db_inv_later t); [exact IH|]. specialize (Hclock O). lia.
  - apply markNotesAsSynced_preserves; exact IH.
  - apply markNotesSyncError_preserves; exact IH.
  - apply sync_cycle_preserves; exact IH.
Qed.

(** ** Updating a note *)

(** C4. On a table the module has produced, with the clock not set back,
    updating an existing note with any title [t] and content [c] and then
    reading it gives a note with title [t], content [c], an update time no
    earlier than its creation time, and status pending, whatever its status
    and text were before. *)
Theorem updateNote_then_getNoteById :
  forall (t0 now : timestamp) (db : Db) (i : Z) (n : Note)
         (t : string) (c : option string),
    reachable t0 db ->
    t0 <= now ->
    getNoteById i db = Some n ->
    exists n',
      fst (updateNote now i (Some t) c db) = Ok (Some n')
      /\ getNoteById i (snd (updateNote now i (Some t) c db)) = Some n'
      /\ id n' = i
      /\ title n' = t
      /\ content n' = c
      /\ created_at n' = created_at n
      /\ created_at n' <= updated_at n'
      /\ updated_at n' = now
      /\ sync_status n' = Pending.
Proof.
  intros t0 now db i n t c Hreach Hle Hget.
  apply reachable_inv in Hreach. destruct Hreach as (_ & Hall & _).
  unfold getNoteById in Hget.
  pose proof (find_some _ _ Hget) as [Hin Hid].
  rewrite Forall_forall in Hall. specialize (Hall n Hin).
  unfold row_ok in Hall. unfold has_id in Hid. apply Z.eqb_eq in Hid.
  assert (Hcount : count_rows (has_id i) (rows db) <> O).
  { intros H0. apply count_rows_zero_iff in H0. congruence. }
  assert (Hfind : find (has_id i)
                    (update_rows (has_id i) (set_text now t c) (rows db))
                  = Some (set_text now t c n)).
  { rewrite find_update_rows by reflexivity. now rewrite Hget. }
  exists (set_text now t c n).
  unfold updateNote, bind, stmt, sql_update, ret, read, getNoteById.
  destruct (count_rows (has_id i) (rows db)) as [|k] eqn:Hc; [now elim Hcount|].
  simpl. rewrite Hfind. repeat split; auto. lia.
Qed.

Lemma synced_db_reachable : reachable 20 synced_db.
Proof.
  exact (reach_markNotesAsSynced 20 _ (Some [1])
           (reach_later 10 20 _
              (reach_addNote 10 _ (Some "a"%string) (Some "x"%string)
                 (reach_open 10))
              ltac:(lia))).
Qed.

Lemma updateNote_then_getNoteById_witness :
  exists n',
    fst (updateNote 30 1 (Some "a"%string) (Some "x"%string) synced_db)
    = Ok (Some n')
    /\ getNoteById 1 (snd (updateNote 30 1 (Some "a"%string) (Some "x"%string)
                             synced_db)) = Some n'
    /\ id n' = 1
    /\ title n' = "a"%string
    /\ content n' = Some "x"%string
    /\ created_at n' = 10
    /\ created_at n' <= updated_at n'
    /\ updated_at n' = 30
    /\ sync_status n' = Pending.
Proof.
  apply (updateNote_then_getNoteById 20 30 synced_db 1
           (mkNote 1 "a" (Some "x"%string) 10 10 (Some 20) Synced)
           "a" (Some "x"%string) synced_db_reachable).
  - lia.
  - reflexivity.
Defined.

(** ** The sync cycle *)

Lemma getNotesToSync_length (db : Db) :
  List.length (getNotesToSync db) = List.length (filter needs_sync (rows db)).
Proof. apply Permutation_length, order_by_perm. Qed.

(** C2. Whenever the cycle reaches its remote call and the call fails in
    transport (the fetch promise rejects), no statement runs: the table is
    exactly the table before the cycle, so every note has the sync_status
    and synced_at it had, and the cycle returns a failure.  When the
    rejection carries a message the module reads as a network error (one
    containing [fetch] or [network], as the runtime's [fetch failed] does),
    the failure is the offline outcome. *)
Theorem sync_transport_failure_is_offline_and_mutates_nothing :
  forall (now : timestamp) (apiUrl : string) (db : Db) (request : Request)
         (resume : FetchOutcome -> SyncResult * Db) (m : string),
    syncWithBackend now apiUrl db = AwaitFetch request resume ->
    is_network_error m = true ->
    resume (FetchRejected m) = (offline_result, db)
    /\ (forall i, getNoteById i (snd (resume (FetchRejected m)))
                  = getNoteById i db)
    /\ forall m', snd (resume (FetchRejected m')) = db
                  /\ success (fst (resume (FetchRejected m'))) = false.
Proof.
  intros now apiUrl db request resume m Hrun Hnet.
  unfold syncWithBackend in Hrun.
  destruct (List.length (getNotesToSync db) =? 0)%nat; [discriminate|].
  injection Hrun as _ <-.
  unfold try_catch, after_fetch, raise, catch_block. rewrite Hnet.
  repeat split. destruct (is_network_error m'); reflexivity.
Qed.

Lemma sync_transport_failure_witness :
  is_network_error "fetch failed" = true
  /\ sync_cycle (fun _ => FetchRejected "fetch failed") 50
                "http://localhost:3000" demo_db
     = (offline_result, demo_db).
Proof.
  split; [reflexivity|].
  apply (sync_transport_failure_is_offline_and_mutates_nothing
           50 "http://localhost:3000" demo_db
           {| url := "http://localhost:3000/api/sync"%string;
              method := "POST"%string;
              notes := map to_wire (getNotesToSync demo_db) |}
           (fun outcome => try_catch (after_fetch 50 outcome) demo_db)
           "fetch failed" eq_refl eq_refl).
Defined.

(** In a table with distinct ids, a selection that keeps the image of one
    row and of no row with another id returns just that image. *)
Lemma filter_map_only (g : Note -> Note) (p : Note -> bool) (rs : list Note)
  (C : Note) :
  NoDup (map id rs) ->
  In C rs ->
  p (g C) = true ->
  (forall n, In n rs -> id n <> id C -> p (g n) = false) ->
  filter p (map g rs) = [g C].
Proof.
  induction rs as [|n rs IH]; simpl; intros Hnd Hin HC Hother; [tauto|].
  inversion Hnd as [|? ? Hnotin Hrest]; subst.
  destruct Hin as [->|Hin].
  - rewrite HC. f_equal. apply filter_none. intros m Hm.
    apply in_map_iff in Hm as (m0 & <- & Hm0).
    rewrite Hother; [discriminate|now right|].
    intros E. apply Hnotin. rewrite <- E. now apply in_map.
  - rewrite Hother; [|now left|].
    + apply IH; auto.
    + intros E. apply Hnotin. rewrite E. now apply in_map.
Qed.

(** C3. On a table the module has produced in which the notes that need
    sync are the pending notes A, B and C, a cycle whose remote call answers
    2xx with [syncedIds = [A, B]] and [failedIds = [C]] succeeds and leaves A
    and B synced with synced_at set to the time of the marking, C in error,
    and the list of notes to sync equal to just C. *)
Theorem sync_cycle_reconciles :
  forall (t0 now : timestamp) (apiUrl : string) (db : Db)
         (fetch : Request -> FetchOutcome) (response : Response)
         (A B C : Note),
    reachable t0 db ->
    getNoteById (id A) db = Some A ->
    getNoteById (id B) db = Some B ->
    getNoteById (id C) db = Some C ->
    id A <> id B -> id A <> id C -> id B <> id C ->
    sync_status A = Pending ->
    sync_status B = Pending ->
    sync_status C = Pending ->
    (forall n, In n (rows db) -> needs_sync n = true ->
               id n = id A \/ id n = id B \/ id n = id C) ->
    fetch {| url := (apiUrl ++ "/api/sync")%string;
             method := "POST"%string;
             notes := map to_wire (getNotesToSync db) |}
    = FetchResolved response ->
    ok response = true ->
    json response = JsonObject (Some [id A; id B]) (Some [id C]) ->
    let result := fst (sync_cycle fetch now apiUrl db) in
    let db' := snd (sync_cycle fetch now apiUrl db) in
    success result = true
    /\ synced_count result = 2%nat
    /\ failed_count result = Some 1%nat
    /\ getNoteById (id A) db' = Some (set_synced now A)
    /\ getNoteById (id B) db' = Some (set_synced now B)
    /\ getNoteById (id C) db' = Some (set_error C)
    /\ sync_status (set_synced now A) = Synced
    /\ synced_at (set_synced now A) <> None
    /\ sync_status (set_synced now B) = Synced
    /\ synced_at (set_synced now B) <> None
    /\ sync_status (set_error C) = SyncError
    /\ getNotesToSync db' = [set_error C].
Proof.
  intros t0 now apiUrl db fetch response A B C Hreach HA HB HC
         Hab Hac Hbc HsA HsB HsC Honly Hfetch Hok Hjson result db'.
  apply reachable_inv in Hreach. destruct Hreach as (Hnd & _ & _).
  unfold getNoteById in HA, HB, HC.
  pose proof (find_some _ _ HC) as [HinC _].
  assert (Hlen : (List.length (getNotesToSync db) =? 0)%nat = false).
  { rewrite getNotesToSync_length. apply Nat.eqb_neq. intros H0.
    apply length_zero_iff_nil in H0.
    assert (Hin : In C (filter needs_sync (rows db))).
    { apply filter_In. split; [exact HinC|]. unfold needs_sync. now rewrite HsC. }
    rewrite H0 in Hin. exact Hin. }
  set (g := fun n =>
              let n1 := if id_in [id A; id B] n then set_synced now n else n in
              if id_in [id C] n1 then set_error n1 else n1).
  assert (Hrun : sync_cycle fetch now apiUrl db
                 = ({| success := true;
                       synced_count := 2%nat;
                       failed_count := Some 1%nat;
                       error := None;
                       message := "Synced 2 notes successfully"%string |},
                    {| rows := map g (rows db); seq := seq db |})).
  { unfold sync_cycle, syncWithBackend. rewrite Hlen, Hfetch.
    unfold try_catch, after_fetch. rewrite Hok, Hjson. simpl.
    unfold bind, stmt, ret, sql_mark_synced, sql_mark_error. simpl.
    unfold update_rows. rewrite map_map. reflexivity. }
  subst result db'. rewrite Hrun. simpl.
  assert (Hget : forall i, find (has_id i) (map g (rows db))
                           = option_map g (find (has_id i) (rows db))).
  { intros i. clear. induction (rows db) as [|m rs IH]; simpl; [reflexivity|].
    assert (E : has_id i (g m) = has_id i m).
    { unfold has_id. f_equal. unfold g. cbv zeta.
      destruct (id_in [id A; id B] m);
        match goal with |- context [if ?b then _ else _] => destruct b end;
        reflexivity. }
    rewrite E. destruct (has_id i m); [reflexivity|exact IH]. }
  assert (HgA : g A = set_synced now A).
  { unfold g, id_in. simpl. rewrite Z.eqb_refl. simpl.
    apply Z.eqb_neq in Hac. now rewrite Hac. }
  assert (HgB : g B = set_synced now B).
  { unfold g, id_in. simpl. rewrite Z.eqb_refl, orb_true_r. simpl.
    apply Z.eqb_neq in Hbc. now rewrite Hbc. }
  assert (HgC : g C = set_error C).
  { unfold g, id_in. simpl.
    assert (E1 : (id C =? id A) = false) by (apply Z.eqb_neq; congruence).
    assert (E2 : (id C =? id B) = false) by (apply Z.eqb_neq; congruence).
    rewrite E1, E2. simpl. now rewrite Z.eqb_refl. }
  unfold getNoteById. simpl. rewrite !Hget, HA, HB, HC. simpl.
  rewrite HgA, HgB, HgC.
  repeat split; try discriminate.
  unfold getNotesToSync. simpl.
  rewrite (filter_map_only g needs_sync (rows db) C Hnd HinC).
  - now rewrite HgC.
  - now rewrite HgC.
  - intros n Hin Hne. unfold g, needs_sync.
    destruct (id_in [id A; id B] n) eqn:Eab; simpl.
    + assert (E : (id n =? id C) = false) by now apply Z.eqb_neq.
      now rewrite E.
    + assert (E : (id n =? id C) = false) by now apply Z.eqb_neq.
      rewrite E. simpl. destruct (sync_status n) eqn:Es; try reflexivity;
        exfalso; (destruct (Honly n Hin) as [H|[H|H]];
                  [unfold needs_sync; now rewrite Es| | |congruence]);
        unfold id_in in Eab; simpl in Eab;
        apply orb_false_iff in Eab as [E1 E2];
        apply orb_false_iff in E2 as [E2 _];
        apply Z.eqb_neq in E1, E2; congruence.
Qed.

Lemma sync_cycle_reconciles_witness :
  let fetch := fun _ : Request =>
                 FetchResolved (mkResponse true 200 "OK"
                                  (JsonObject (Some [1; 2]) (Some [3]))) in
  let db' := snd (sync_cycle fetch 50 "http://localhost:3000" demo_db) in
  reachable 40 demo_db
  /\ getNoteById 1 db' = Some (set_synced 50 (demo_note 1 "a" 10 Pending))
  /\ getNoteById 2 db' = Some (set_synced 50 (demo_note 2 "b" 30 Pending))
  /\ getNoteById 3 db' = Some (set_error (demo_note 3 "c" 20 Pending))
  /\ getNotesToSync db' = [set_error (demo_note 3 "c" 20 Pending)].
Proof.
  intros fetch db'.
  assert (Hreach : reachable 40 demo_db).
  { apply (reach_addNotesBulk 10 40 empty_db
             (fun k => match k with O => 10 | S O => 30 | _ => 20 end)
             [mkInput (Some "a"%string) None;
              mkInput (Some "b"%string) None;
              mkInput (Some "c"%string) None]
             (reach_open 10)).
    intros [|[|k]]; lia. }
  split; [exact Hreach|].
  pose proof (sync_cycle_reconciles 40 50 "http://localhost:3000" demo_db
                fetch (mkResponse true 200 "OK"
                         (JsonObject (Some [1; 2]) (Some [3])))
                (demo_note 1 "a" 10 Pending)
                (demo_note 2 "b" 30 Pending)
                (demo_note 3 "c" 20 Pending)
                Hreach eq_refl eq_refl eq_refl) as H.
  simpl in H. fold db' in H.
  destruct H as (_ & _ & _ & H1 & H2 & H3 & _ & _ & _ & _ & _ & H4);
    try lia; try reflexivity.
  - intros n [<-|[<-|[<-|[]]]] _; simpl; auto.
  - repeat split; assumption.
Defined.

(** * Further properties of the module *)

(** ** The queue of notes to sync *)

Lemma In_getNotesToSync (db : Db) (n : Note) :
  In n (getNotesToSync db) <-> In n (rows db) /\ needs_sync n = true.
Proof.
  unfold getNotesToSync. rewrite <- filter_In. split.
  - apply Permutation_in, order_by_perm.
  - apply Permutation_in. symmetry. apply order_by_perm.
Qed.

Lemma needs_sync_iff (n : Note) :
  needs_sync n = true <-> sync_status n <> Synced.
Proof.
  unfold needs_sync. destruct (sync_status n); split; congruence.
Qed.

(** X1. [getNotesToSync] returns exactly the notes whose status is not
    synced (pending or error), each once per row, oldest creation first. *)
Theorem getNotesToSync_exactly_unsynced :
  forall (db : Db),
    Permutation (getNotesToSync db) (filter needs_sync (rows db))
    /\ (forall n, In n (getNotesToSync db)
                  <-> In n (rows db) /\ sync_status n <> Synced)
    /\ StronglySorted (fun a b => created_at a <= created_at b)
                      (getNotesToSync db).
Proof.
  intros db. split; [apply order_by_perm|]. split.
  - intros n. rewrite In_getNotesToSync, needs_sync_iff. reflexivity.
  - apply order_by_key_ascending.
Qed.

Lemma count_rows_never (p : Note -> bool) (rs : list Note) :
  (forall n, p n = false) -> count_rows p rs = O.
Proof.
  intros H. unfold count_rows.
  induction rs as [|n rs IH]; simpl; [reflexivity|]. now rewrite H.
Qed.

Lemma update_rows_never (p : Note -> bool) (f : Note -> Note) (rs : list Note) :
  (forall n, p n = false) -> update_rows p f rs = rs.
Proof.
  intros H. unfold update_rows.
  induction rs as [|n rs IH]; simpl; [reflexivity|]. now rewrite H, IH.
Qed.


Lemma targeted_few (ids : option (list Z)) :
  non_empty ids = false -> forall n, targeted ids n = false.
Proof. destruct ids as [[|i l]|]; simpl; intros H n; auto; discriminate. Qed.

Lemma markNotesAsSynced_run (now : timestamp) (ids : option (list Z)) (db : Db) :
  markNotesAsSynced now ids db
  = (Ok (count_rows (targeted ids) (rows db)),
     {| rows := update_rows (targeted ids) (set_synced now) (rows db);
        seq := seq db |}).
Proof.
  destruct (non_empty ids) eqn:E.
  - destruct ids as [[|i l]|]; try discriminate. reflexivity.
  - pose proof (targeted_few ids E) as Hno.
    rewrite (count_rows_never _ _ Hno), (update_rows_never _ _ _ Hno).
    destruct ids as [[|i l]|]; try discriminate; now destruct db.
Qed.

Lemma markNotesSyncError_run (ids : option (list Z)) (db : Db) :
  markNotesSyncError ids db
  = (Ok (count_rows (targeted ids) (rows db)),
     {| rows := update_rows (targeted ids) set_error (rows db);
        seq := seq db |}).
Proof.
  destruct (non_empty ids) eqn:E.
  - destruct ids as [[|i l]|]; try discriminate. reflexivity.
  - pose proof (targeted_few ids E) as Hno.
    rewrite (count_rows_never _ _ Hno), (update_rows_never _ _ _ Hno).
    destruct ids as [[|i l]|]; try discriminate; now destruct db.
Qed.



(** ** Statistics and the other operations *)

Lemma needs_sync_partition (rs : list Note) :
  (List.length (filter needs_sync rs) + count_rows (has_status Synced) rs)%nat
  = List.length rs.
Proof.
  unfold count_rows, has_status, needs_sync.
  induction rs as [|n rs IH]; simpl; [reflexivity|].
  destruct (sync_status n); simpl; lia.
Qed.

(** X4. The notes that the next sync cycle will send are the notes that
    [getStats] does not count as synced: their number plus [synced] is
    [total], and it is at least [pending]. *)
Theorem getStats_and_sync_queue :
  forall (db : Db),
    (List.length (getNotesToSync db) + synced (getStats db))%nat
    = total (getStats db)
    /\ (pending (getStats db) <= List.length (getNotesToSync db))%nat.
Proof.
  intros db. rewrite getNotesToSync_length. simpl.
  pose proof (needs_sync_partition (rows db)) as Hp. split; [exact Hp|].
  pose proof (status_partition (map sync_status (rows db))) as Hs.
  rewrite length_map, <- !count_rows_has_status in Hs. lia.
Qed.

Lemma count_rows_app (p : Note -> bool) (a b : list Note) :
  count_rows p (a ++ b) = (count_rows p a + count_rows p b)%nat.
Proof. unfold count_rows. now rewrite filter_app, length_app. Qed.

Lemma addNote_run (now : timestamp) (t : string) (c : option string) (db : Db) :
  addNote now (Some t) c db
  = (Ok (Some (mkNote (next_rowid db) t c now now None Pending)),
     {| rows := rows db ++ [mkNote (next_rowid db) t c now now None Pending];
        seq := next_rowid db |}).
Proof.
  unfold addNote, bind, stmt, read, getNoteById. simpl.
  rewrite find_app_fresh; [reflexivity| |reflexivity].
  intros m Hm. apply next_rowid_fresh in Hm. lia.
Qed.

(** X5. Adding a note raises [total] and [pending] of [getStats] by one and
    leaves [synced] as it was; the new note is among the notes to sync. *)
Theorem addNote_counts_as_pending :
  forall (now : timestamp) (t : string) (c : option string) (db : Db),
    let db' := snd (addNote now (Some t) c db) in
    total (getStats db') = S (total (getStats db))
    /\ pending (getStats db') = S (pending (getStats db))
    /\ synced (getStats db') = synced (getStats db)
    /\ exists n, fst (addNote now (Some t) c db) = Ok (Some n)
                 /\ In n (getNotesToSync db').
Proof.
  intros now t c db db'. subst db'. rewrite addNote_run.
  unfold getStats. simpl.
  rewrite length_app, !count_rows_app. unfold count_rows, has_status. simpl.
  repeat split; try lia.
  eexists. split; [reflexivity|]. apply In_getNotesToSync. simpl. split.
  - apply in_or_app. right. now left.
  - reflexivity.
Qed.

(** ** The sync cycle: when it calls, what it sends, what it changes *)


Lemma nothing_to_sync_iff (db : Db) :
  getNotesToSync db = [] <-> forall n, In n (rows db) -> sync_status n = Synced.
Proof.
  split.
  - intros E n Hin. destruct (sync_status n) eqn:Es; try reflexivity;
      exfalso; (assert (Hq : In n (getNotesToSync db))
                 by (apply In_getNotesToSync; unfold needs_sync;
                     rewrite Es; auto));
      rewrite E in Hq; exact Hq.
  - intros Hall. apply length_zero_iff_nil. rewrite getNotesToSync_length.
    rewrite filter_none; [reflexivity|].
    intros n Hin. unfold needs_sync. now rewrite (Hall n Hin).
Qed.

Lemma syncWithBackend_run (now : timestamp) (apiUrl : string) (db : Db) :
  syncWithBackend now apiUrl db
  = match getNotesToSync db with
    | [] => Return (no_notes_result, db)
    | _ :: _ =>
        AwaitFetch
          {| url := (apiUrl ++ "/api/sync")%string;
             method := "POST"%string;
             notes := map to_wire (getNotesToSync db) |}
          (fun outcome => try_catch (after_fetch now outcome) db)
    end.
Proof.
  unfold syncWithBackend. now destruct (getNotesToSync db).
Qed.

(** X6. A cycle returns at once with [No notes to sync], without calling the
    remote and without touching the table, exactly when every note of the
    table is synced (in particular on the empty table). *)
Theorem syncWithBackend_skips_when_all_synced :
  forall (now : timestamp) (apiUrl : string) (db : Db),
    (forall n, In n (rows db) -> sync_status n = Synced)
    <-> syncWithBackend now apiUrl db = Return (no_notes_result, db).
Proof.
  intros now apiUrl db. rewrite <- nothing_to_sync_iff, syncWithBackend_run.
  destruct (getNotesToSync db); split; congruence.
Qed.

Lemma StronglySorted_map_to_wire (l : list Note) :
  StronglySorted (fun a b => created_at a <= created_at b) l ->
  StronglySorted (fun a b => Wire.created_at a <= Wire.created_at b)
                 (map to_wire l).
Proof.
  induction 1 as [|a l Hs IH Hall]; simpl; constructor; [exact IH|].
  rewrite Forall_map. exact Hall.
Qed.

(** X7. When a cycle calls the remote, the request is a POST to
    [<apiUrl>/api/sync] whose notes are exactly the notes of the table that
    are not synced, without their sync bookkeeping, oldest creation first;
    there is at least one. *)
Theorem syncWithBackend_request_carries_the_queue :
  forall (now : timestamp) (apiUrl : string) (db : Db) (request : Request)
         (resume : FetchOutcome -> SyncResult * Db),
    syncWithBackend now apiUrl db = AwaitFetch request resume ->
    url request = (apiUrl ++ "/api/sync")%string
    /\ method request = "POST"%string
    /\ notes request <> []
    /\ (forall w, In w (notes request)
                  <-> exists n, In n (rows db) /\ sync_status n <> Synced
                                /\ w = to_wire n)
    /\ StronglySorted (fun a b => Wire.created_at a <= Wire.created_at b)
                      (notes request).
Proof.
  intros now apiUrl db request resume Hrun.
  rewrite syncWithBackend_run in Hrun.
  destruct (getNotesToSync db) as [|q qs] eqn:Eq; [discriminate|].
  injection Hrun as <- _. cbn [url method notes].
  change (to_wire q :: map to_wire qs) with (map to_wire (q :: qs)).
  rewrite <- Eq.
  split; [reflexivity|]. split; [reflexivity|]. split.
  - rewrite Eq. discriminate.
  - split.
    + intros w. rewrite in_map_iff. split.
      * intros (n & <- & Hin). apply In_getNotesToSync in Hin.
        exists n. rewrite <- needs_sync_iff. tauto.
      * intros (n & Hin & Hs & ->). exists n. split; [reflexivity|].
        apply In_getNotesToSync. rewrite needs_sync_iff. tauto.
    + apply StronglySorted_map_to_wire, order_by_key_ascending.
Qed.

Lemma syncWithBackend_request_witness :
  exists request resume,
    syncWithBackend 50 "http://localhost:3000" demo_db
    = AwaitFetch request resume
    /\ url request = "http://localhost:3000/api/sync"%string
    /\ map Wire.id (notes request) = [1; 3; 2].
Proof.
  eexists. eexists. split; [reflexivity|].
  split; [|reflexivity].
  exact (proj1 (syncWithBackend_request_carries_the_queue
                  50 "http://localhost:3000" demo_db _ _ eq_refl)).
Defined.

(** X8. When the remote answers the call of a cycle with a status that is
    not 2xx, or with a body that is not JSON or is [null], the cycle reports
    a failure and the table is exactly as before the cycle. *)
Theorem syncWithBackend_bad_response_mutates_nothing :
  forall (now : timestamp) (apiUrl : string) (db : Db) (request : Request)
         (resume : FetchOutcome -> SyncResult * Db) (response : Response),
    syncWithBackend now apiUrl db = AwaitFetch request resume ->
    ok response = false
    \/ json response = JsonNull
    \/ (exists m, json response = JsonRejected m) ->
    snd (resume (FetchResolved response)) = db
    /\ success (fst (resume (FetchResolved response))) = false
    /\ synced_count (fst (resume (FetchResolved response))) = O.
Proof.
  intros now apiUrl db request resume response Hrun Hbad.
  rewrite syncWithBackend_run in Hrun.
  destruct (getNotesToSync db) as [|q qs]; [discriminate|].
  injection Hrun as _ <-.
  unfold try_catch, after_fetch, raise, catch_block.
  destruct (ok response); simpl.
  - destruct Hbad as [H|[H|(m & H)]]; [discriminate| |]; rewrite H;
      match goal with |- context [is_network_error ?x] =>
        destruct (is_network_error x) end; auto.
  - match goal with |- context [is_network_error ?x] =>
      destruct (is_network_error x) end; auto.
Qed.

Lemma syncWithBackend_bad_response_witness :
  let cycle :=
    sync_cycle (fun _ => FetchResolved
                           (mkResponse false 500 "Internal Server Error" JsonNull))
               50 "http://localhost:3000" demo_db in
  snd cycle = demo_db
  /\ success (fst cycle) = false
  /\ synced_count (fst cycle) = O.
Proof.
  exact (syncWithBackend_bad_response_mutates_nothing
           50 "http://localhost:3000" demo_db _ _
           (mkResponse false 500 "Internal Server Error" JsonNull)
           eq_refl (or_introl eq_refl)).
Defined.

Lemma guarded_markNotesAsSynced (now : timestamp) (s : option (list Z)) (db : Db) :
  exists k,
    (if non_empty s then markNotesAsSynced now s else ret O) db
    = (Ok k, {| rows := update_rows (targeted s) (set_synced now) (rows db);
                seq := seq db |}).
Proof.
  destruct (non_empty s) eqn:E.
  - eexists. apply markNotesAsSynced_run.
  - exists O. unfold ret.
    rewrite (update_rows_never _ _ _ (targeted_few s E)). now destruct db.
Qed.

Lemma guarded_markNotesSyncError (f : option (list Z)) (db : Db) :
  exists k,
    (if non_empty f then markNotesSyncError f else ret O) db
    = (Ok k, {| rows := update_rows (targeted f) set_error (rows db);
                seq := seq db |}).
Proof.
  destruct (non_empty f) eqn:E.
  - eexists. apply markNotesSyncError_run.
  - exists O. unfold ret.
    rewrite (update_rows_never _ _ _ (targeted_few f E)). now destruct db.
Qed.

(** The table after the reconciliation of a 2xx answer. *)
Lemma after_fetch_accepted (now : timestamp) (response : Response)
  (s f : option (list Z)) (db : Db) :
  ok response = true ->
  json response = JsonObject s f ->
  try_catch (after_fetch now (FetchResolved response)) db
  = ({| success := true;
        synced_count := length_or_zero s;
        failed_count := Some (length_or_zero f);
        error := None;
        message := ("Synced " ++ string_of_nat (length_or_zero s)
                    ++ " notes successfully")%string |},
     {| rows := update_rows (targeted f) set_error
                  (update_rows (targeted s) (set_synced now) (rows db));
        seq := seq db |}).
Proof.
  intros Hok Hjson. unfold try_catch, after_fetch. rewrite Hok, Hjson.
  cbn [negb]. unfold bind.
  destruct (guarded_markNotesAsSynced now s db) as (k1 & ->).
  destruct (guarded_markNotesSyncError f
              {| rows := update_rows (targeted s) (set_synced now) (rows db);
                 seq := seq db |}) as (k2 & ->).
  reflexivity.
Qed.

(** Whatever the remote does, the table after a cycle is the table before
    with some notes marked synced and then some marked in error. *)
Lemma sync_cycle_rows (fetch : Request -> FetchOutcome) (now : timestamp)
  (apiUrl : string) (db : Db) :
  exists s f,
    snd (sync_cycle fetch now apiUrl db)
    = {| rows := update_rows (targeted f) set_error
                   (update_rows (targeted s) (set_synced now) (rows db));
         seq := seq db |}.
Proof.
  assert (Hsame : db = {| rows := update_rows (targeted None) set_error
                                    (update_rows (targeted None)
                                       (set_synced now) (rows db));
                          seq := seq db |}).
  { rewrite !update_rows_never by reflexivity. now destruct db. }
  unfold sync_cycle. rewrite syncWithBackend_run.
  destruct (getNotesToSync db) as [|q qs]; [exists None, None; exact Hsame|].
  set (outcome := fetch _). clearbody outcome.
  destruct outcome as [m|response].
  - exists None, None. exact Hsame.
  - destruct (ok response) eqn:Hok.
    + destruct (json response) as [m| |s f] eqn:Hjson.
      * exists None, None. unfold try_catch, after_fetch.
        rewrite Hok, Hjson. exact Hsame.
      * exists None, None. unfold try_catch, after_fetch.
        rewrite Hok, Hjson. exact Hsame.
      * exists s, f. now rewrite (after_fetch_accepted now response s f db).
    + exists None, None. unfold try_catch, after_fetch. rewrite Hok.
      exact Hsame.
Qed.

Lemma to_wire_update_rows (p : Note -> bool) (f : Note -> Note) (rs : list Note) :
  (forall n, to_wire (f n) = to_wire n) ->
  map to_wire (update_rows p f rs) = map to_wire rs.
Proof.
  intros Hf. unfold update_rows. rewrite map_map. apply map_ext.
  intros n. destruct (p n); auto.
Qed.

(** X9. Whatever the remote answers (or fails to), a sync cycle keeps every
    row in place with its id, title, content, created_at and updated_at: what
    the table would send is the same before and after, and no id is handed
    out. *)
Theorem sync_cycle_never_changes_text :
  forall (fetch : Request -> FetchOutcome) (now : timestamp)
         (apiUrl : string) (db : Db),
    map to_wire (rows (snd (sync_cycle fetch now apiUrl db)))
    = map to_wire (rows db)
    /\ List.length (rows (snd (sync_cycle fetch now apiUrl db)))
       = List.length (rows db)
    /\ seq (snd (sync_cycle fetch now apiUrl db)) = seq db.
Proof.
  intros fetch now apiUrl db.
  destruct (sync_cycle_rows fetch now apiUrl db) as (s & f & ->). simpl.
  assert (Hw : map to_wire
                 (update_rows (targeted f) set_error
                    (update_rows (targeted s) (set_synced now) (rows db)))
               = map to_wire (rows db))
    by (rewrite !to_wire_update_rows; reflexivity).
  split; [exact Hw|]. split; [|reflexivity].
  rewrite <- (length_map to_wire), Hw. apply length_map.
Qed.



(** ** Create, update, delete: errors and what is left alone *)

Lemma count_rows_hit (p : Note -> bool) (rs : list Note) (n : Note) :
  In n rs -> p n = true -> count_rows p rs <> O.
Proof.
  intros Hin Hp H0. apply count_rows_zero_iff in H0.
  apply (find_none _ _ H0) in Hin. congruence.
Qed.

(** X11. A [null] title violates [title TEXT NOT NULL]: [addNote] raises
    with the engine's message and so does [updateNote] on an id that has a
    row, and in both cases the table is exactly as before. *)
Theorem null_title_is_rejected :
  forall (now : timestamp) (c : option string) (db : Db),
    addNote now None c db = (Raise not_null_title, db)
    /\ forall i,
         (exists n, In n (rows db) /\ id n = i) ->
         updateNote now i None c db = (Raise not_null_title, db).
Proof.
  intros now c db. split; [reflexivity|].
  intros i (n & Hin & Hid).
  unfold updateNote, bind, stmt, sql_update.
  destruct (count_rows (has_id i) (rows db)) eqn:Hc; [|reflexivity].
  exfalso. apply (count_rows_hit (has_id i) (rows db) n Hin); [|exact Hc].
  unfold has_id. now apply Z.eqb_eq.
Qed.

Lemma null_title_is_rejected_witness :
  addNote 40 None (Some "x"%string) demo_db = (Raise not_null_title, demo_db)
  /\ updateNote 40 2 None (Some "x"%string) demo_db
     = (Raise not_null_title, demo_db).
Proof.
  split.
  - exact (proj1 (null_title_is_rejected 40 (Some "x"%string) demo_db)).
  - apply (proj2 (null_title_is_rejected 40 (Some "x"%string) demo_db) 2).
    exists (demo_note 2 "b" 30 Pending). split; [simpl; auto|reflexivity].
Defined.

Lemma find_filter_other (i j : Z) (rs : list Note) :
  j <> i ->
  find (has_id j) (filter (fun n => negb (has_id i n)) rs)
  = find (has_id j) rs.
Proof.
  intros Hne. induction rs as [|m rs IH]; simpl; [reflexivity|].
  destruct (has_id i m) eqn:Ei; simpl.
  - destruct (has_id j m) eqn:Ej; [|exact IH].
    unfold has_id in Ei, Ej. apply Z.eqb_eq in Ei, Ej. congruence.
  - destruct (has_id j m); [reflexivity|exact IH].
Qed.

Lemma deleteNote_run (i : Z) (db : Db) :
  deleteNote i db
  = (Ok (0 <? count_rows (has_id i) (rows db))%nat,
     {| rows := filter (fun n => negb (has_id i n)) (rows db);
        seq := seq db |}).
Proof. reflexivity. Qed.

(** X12. [deleteNote] removes the rows of that id and nothing else: the
    other rows stay, in order, every other id reads as before, the id
    counter is untouched, and the result tells whether a row was removed. *)
Theorem deleteNote_removes_only_that_id :
  forall (i : Z) (db : Db),
    let db' := snd (deleteNote i db) in
    (forall n, In n (rows db') <-> In n (rows db) /\ id n <> i)
    /\ (forall j, j <> i -> getNoteById j db' = getNoteById j db)
    /\ seq db' = seq db
    /\ (fst (deleteNote i db) = Ok true
        <-> exists n, In n (rows db) /\ id n = i).
Proof.
  intros i db db'. subst db'. rewrite deleteNote_run. simpl.
  split; [|split; [|split; [reflexivity|]]].
  - intros n. rewrite filter_In. unfold has_id.
    destruct (Z.eqb_spec (id n) i); simpl; intuition congruence.
  - intros j Hne. unfold getNoteById. simpl. now apply find_filter_other.
  - split.
    + intros H. injection H as H. apply Nat.ltb_lt in H.
      destruct (find (has_id i) (rows db)) as [n|] eqn:Ef.
      * apply find_some in Ef as [Hin Hid]. exists n. split; [exact Hin|].
        now apply Z.eqb_eq.
      * apply count_rows_zero_iff in Ef. lia.
    + intros (n & Hin & Hid). f_equal. apply Nat.ltb_lt.
      assert (count_rows (has_id i) (rows db) <> O); [|lia].
      apply (count_rows_hit _ _ n Hin). unfold has_id. now apply Z.eqb_eq.
Qed.

Lemma deleteNote_removes_only_that_id_witness :
  getNoteById 1 (snd (deleteNote 2 demo_db)) = getNoteById 1 demo_db
  /\ getNoteById 2 (snd (deleteNote 2 demo_db)) = None.
Proof.
  split; [|reflexivity].
  apply (proj1 (proj2 (deleteNote_removes_only_that_id 2 demo_db)) 1).
  discriminate.
Defined.

Lemma find_update_rows_other (i j : Z) (f : Note -> Note) (rs : list Note) :
  j <> i ->
  (forall n, id (f n) = id n) ->
  find (has_id j) (update_rows (has_id i) f rs) = find (has_id j) rs.
Proof.
  intros Hne Hf. induction rs as [|m rs IH]; simpl; [reflexivity|].
  destruct (has_id i m) eqn:Ei.
  - assert (Ej : has_id j (f m) = false).
    { unfold has_id in *. rewrite Hf. apply Z.eqb_eq in Ei.
      apply Z.eqb_neq. congruence. }
    assert (Ej' : has_id j m = false).
    { unfold has_id in *. apply Z.eqb_eq in Ei.
      apply Z.eqb_neq. congruence. }
    rewrite Ej, Ej'. exact IH.
  - destruct (has_id j m); [reflexivity|exact IH].
Qed.

Lemma updateNote_table (now : timestamp) (i : Z) (t c : option string) (db : Db) :
  snd (updateNote now i t c db) = db
  \/ exists t',
       t = Some t'
       /\ snd (updateNote now i t c db)
          = {| rows := update_rows (has_id i) (set_text now t' c) (rows db);
               seq := seq db |}.
Proof.
  unfold updateNote, bind, stmt, sql_update. destruct t as [t'|].
  - right. exists t'. split; [reflexivity|].
    destruct (count_rows (has_id i) (rows db)); reflexivity.
  - left. destruct (count_rows (has_id i) (rows db) =? 0)%nat; reflexivity.
Qed.

(** X13. [updateNote] touches only the note of that id: no row is added or
    removed, the id counter is untouched, every other id reads as before,
    and the note itself keeps its id, created_at and synced_at. *)
Theorem updateNote_touches_only_that_id :
  forall (now : timestamp) (i : Z) (t c : option string) (db : Db),
    let db' := snd (updateNote now i t c db) in
    map id (rows db') = map id (rows db)
    /\ seq db' = seq db
    /\ (forall j, j <> i -> getNoteById j db' = getNoteById j db)
    /\ forall n, getNoteById i db = Some n ->
                 exists n', getNoteById i db' = Some n'
                            /\ id n' = id n
                            /\ created_at n' = created_at n
                            /\ synced_at n' = synced_at n.
Proof.
  intros now i t c db db'. subst db'.
  destruct (updateNote_table now i t c db) as [->|(t' & -> & ->)].
  - repeat split; auto. intros n Hn. exists n. auto.
  - simpl. split; [now apply map_id_update_rows|]. split; [reflexivity|].
    split.
    + intros j Hne. unfold getNoteById. simpl.
      now apply find_update_rows_other.
    + intros n Hn. unfold getNoteById in *. simpl.
      rewrite find_update_rows by reflexivity. rewrite Hn. simpl.
      eexists. split; [reflexivity|]. auto.
Qed.

Lemma updateNote_touches_only_that_id_witness :
  getNoteById 1 (snd (updateNote 40 2 (Some "t"%string) None demo_db))
  = getNoteById 1 demo_db.
Proof.
  apply (proj1 (proj2 (proj2 (updateNote_touches_only_that_id
                                40 2 (Some "t"%string) None demo_db))) 1).
  discriminate.
Defined.

(** X14. Ids are not reused: on a table the module has produced, after a
    note is deleted the next note added gets an id above the deleted one and
    above every id the table held. *)
Theorem deleted_id_is_not_reused :
  forall (t0 now : timestamp) (db : Db) (n : Note)
         (t : string) (c : option string),
    reachable t0 db ->
    In n (rows db) ->
    exists n',
      fst (addNote now (Some t) c (snd (deleteNote (id n) db))) = Ok (Some n')
      /\ id n < id n'
      /\ forall m, In m (rows db) -> id m < id n'.
Proof.
  intros t0 now db n t c Hreach Hin.
  apply reachable_inv in Hreach. destruct Hreach as (_ & Hall & _).
  rewrite Forall_forall in Hall.
  rewrite deleteNote_run, addNote_run. simpl.
  eexists. split; [reflexivity|]. simpl.
  assert (Hm : forall m, In m (rows db)
                 -> id m < next_rowid
                      {| rows := filter (fun n0 => negb (has_id (id n) n0)) (rows db);
                         seq := seq db |}).
  { intros m Hm. specialize (Hall m Hm). unfold row_ok in Hall.
    unfold next_rowid. simpl. lia. }
  split; auto.
Qed.

Lemma demo_db_reachable : reachable 40 demo_db.
Proof.
  apply (reach_addNotesBulk 10 40 empty_db
           (fun k => match k with O => 10 | S O => 30 | _ => 20 end)
           [mkInput (Some "a"%string) None;
            mkInput (Some "b"%string) None;
            mkInput (Some "c"%string) None]
           (reach_open 10)).
  intros [|[|k]]; lia.
Qed.

Lemma deleted_id_is_not_reused_witness :
  exists n',
    fst (addNote 40 (Some "d"%string) None (snd (deleteNote 3 demo_db)))
    = Ok (Some n')
    /\ 3 < id n'.
Proof.
  destruct (deleted_id_is_not_reused 40 40 demo_db
              (demo_note 3 "c" 20 Pending) "d" None
              demo_db_reachable) as (n' & H1 & H2 & _).
  - simpl. auto.
  - exists n'. split; [exact H1|exact H2].
Defined.

(** X15. An update puts the note back in the queue: after [updateNote] with
    a title, the updated note is among the notes to sync, whatever its
    status was, and [getStats] counts it as pending. *)
Theorem updateNote_requeues_the_note :
  forall (now : timestamp) (i : Z) (n : Note) (t : string)
         (c : option string) (db : Db),
    getNoteById i db = Some n ->
    exists n',
      fst (updateNote now i (Some t) c db) = Ok (Some n')
      /\ sync_status n' = Pending
      /\ In n' (getNotesToSync (snd (updateNote now i (Some t) c db)))
      /\ pending (getStats (snd (updateNote now i (Some t) c db))) <> O.
Proof.
  intros now i n t c db Hget. unfold getNoteById in Hget.
  pose proof (find_some _ _ Hget) as [Hin Hid].
  pose proof (count_rows_hit _ _ n Hin Hid) as Hcount.
  assert (Hfind : find (has_id i)
                    (update_rows (has_id i) (set_text now t c) (rows db))
                  = Some (set_text now t c n)).
  { rewrite find_update_rows by reflexivity. now rewrite Hget. }
  exists (set_text now t c n).
  unfold updateNote, bind, stmt, sql_update, ret, read, getNoteById.
  destruct (count_rows (has_id i) (rows db)) as [|k] eqn:Hc; [now elim Hcount|].
  simpl. rewrite Hfind. split; [reflexivity|]. split; [reflexivity|].
  apply find_some in Hfind as [Hin' _]. split.
  - apply In_getNotesToSync. simpl. auto.
  - now apply (count_rows_hit _ _ (set_text now t c n)).
Qed.

Lemma updateNote_requeues_witness :
  exists n',
    fst (updateNote 30 1 (Some "a"%string) (Some "x"%string) synced_db)
    = Ok (Some n')
    /\ sync_status n' = Pending
    /\ In n' (getNotesToSync
                (snd (updateNote 30 1 (Some "a"%string) (Some "x"%string)
                        synced_db)))
    /\ pending (getStats
                  (snd (updateNote 30 1 (Some "a"%string)
                          (Some "x"%string) synced_db))) <> O.
Proof.
  exact (updateNote_requeues_the_note 30 1
           (mkNote 1 "a" (Some "x"%string) 10 10 (Some 20) Synced)
           "a" (Some "x"%string) synced_db eq_refl).
Defined.

(** ** What holds of every table the module produces *)

Lemma find_unique (rs : list Note) (n : Note) :
  NoDup (map id rs) -> In n rs -> find (has_id (id n)) rs = Some n.
Proof.
  induction rs as [|m rs IH]; simpl; intros Hnd Hin; [tauto|].
  inversion Hnd as [|? ? Hnotin Hrest]; subst.
  unfold has_id at 1. destruct Hin as [->|Hin].
  - now rewrite Z.eqb_refl.
  - destruct (Z.eqb_spec (id m) (id n)) as [E|E]; [|now apply IH].
    exfalso. apply Hnotin. rewrite E. now apply in_map.
Qed.

(** X16. On every table the module produces, ids are distinct, positive and
    at most the id counter, every note was created no later than it was last
    updated, which was no later than now, and [getNoteById] on the id of a
    row returns that row. *)
Theorem reachable_tables_are_well_formed :
  forall (t : timestamp) (db : Db),
    reachable t db ->
    NoDup (map id (rows db))
    /\ (forall n, In n (rows db) ->
                  0 < id n <= seq db
                  /\ created_at n <= updated_at n <= t
                  /\ getNoteById (id n) db = Some n).
Proof.
  intros t db Hreach. apply reachable_inv in Hreach.
  destruct Hreach as (Hnd & Hall & _). split; [exact Hnd|].
  intros n Hin. rewrite Forall_forall in Hall.
  destruct (Hall n Hin) as [H1 H2]. repeat split; try lia.
  now apply find_unique.
Qed.

Lemma reachable_tables_witness :
  NoDup (map id (rows demo_db))
  /\ forall n, In n (rows demo_db) ->
               0 < id n <= seq demo_db
               /\ created_at n <= updated_at n <= 40
               /\ getNoteById (id n) demo_db = Some n.
Proof.
  exact (reachable_tables_are_well_formed 40 demo_db demo_db_reachable).
Defined.

Section RowInvariant.

Variable P : Note -> Prop.
Hypothesis P_new : forall i t c now, P (mkNote i t c now now None Pending).
Hypothesis P_text : forall now t c n, P n -> P (set_text now t c n).
Hypothesis P_synced : forall now n, P n -> P (set_synced now n).
Hypothesis P_error : forall n, P n -> P (set_error n).

Lemma Forall_update_rows (p : Note -> bool) (f : Note -> Note) (rs : list Note) :
  (forall n, P n -> P (f n)) -> Forall P rs -> Forall P (update_rows p f rs).
Proof.
  intros Hf Hall. unfold update_rows. rewrite Forall_map.
  eapply Forall_impl; [|exact Hall]. intros n Hn. destruct (p n); auto.
Qed.

Lemma Forall_filter_rows (p : Note -> bool) (rs : list Note) :
  Forall P rs -> Forall P (filter p rs).
Proof.
  rewrite !Forall_forall. intros H n Hin. apply filter_In in Hin. apply H, Hin.
Qed.

Lemma row_of_input_new (inp : NoteInput) (r : Note) :
  row_of_input inp r -> P r.
Proof.
  intros (_ & _ & Hs & Hn & Hc). destruct r as [i t c ca ua sa st].
  simpl in *. subst. apply P_new.
Qed.

(** A property of rows that new rows have and that the three row updates
    keep holds of every row of every table the module produces. *)
Lemma reachable_rows (t : timestamp) (db : Db) :
  reachable t db -> Forall P (rows db).
Proof.
  induction 1 as [t|t t' db _ IH Hle|t db tt c _ IH|t db i tt c _ IH
                 |t db i _ IH|t t' db clock inputs _ IH Hclock
                 |t db ids _ IH|t db ids _ IH|t db fetch apiUrl _ IH].
  - constructor.
  - exact IH.
  - destruct tt as [tt|]; [|exact IH]. rewrite addNote_run. simpl.
    apply Forall_app. split; [exact IH|]. repeat constructor. apply P_new.
  - destruct (updateNote_table t i tt c db) as [->|(t' & -> & ->)];
      [exact IH|]. simpl. apply Forall_update_rows; auto.
  - rewrite deleteNote_run. simpl. now apply Forall_filter_rows.
  - unfold addNotesBulk, transaction.
    destruct (insertMany clock inputs [] db) as [[out|e] db'] eqn:Hrun;
      [|exact IH]. simpl. apply insertMany_ok in Hrun.
    destruct Hrun as (new & _ & -> & Hnew & _).
    apply Forall_app. split; [exact IH|].
    clear -Hnew P_new. induction Hnew as [|inp r inputs new Hr _ IHn];
      constructor; [|exact IHn]. eapply row_of_input_new; eauto.
  - rewrite markNotesAsSynced_run. simpl. apply Forall_update_rows; auto.
  - rewrite markNotesSyncError_run. simpl. apply Forall_update_rows; auto.
  - destruct (sync_cycle_rows fetch t apiUrl db) as (s & f & ->). simpl.
    apply Forall_update_rows; auto. apply Forall_update_rows; auto.
Qed.

End RowInvariant.

(** X17. On every table the module produces, a note whose status is synced
    has a synced_at time, and a note that was never synced (no synced_at) is
    pending or in error. *)
Theorem synced_notes_have_a_sync_time :
  forall (t : timestamp) (db : Db) (n : Note),
    reachable t db ->
    In n (rows db) ->
    (sync_status n = Synced -> synced_at n <> None)
    /\ (synced_at n = None -> needs_sync n = true).
Proof.
  intros t db n Hreach Hin.
  assert (Hall : Forall synced_has_time (rows db)).
  { apply (reachable_rows synced_has_time) with (t := t); auto;
      unfold synced_has_time; simpl; intros; congruence. }
  rewrite Forall_forall in Hall. specialize (Hall n Hin).
  unfold synced_has_time in Hall. split; [exact Hall|].
  intros Hnone. unfold needs_sync.
  destruct (sync_status n); auto. now elim Hall.
Qed.

Lemma synced_notes_witness :
  (sync_status (mkNote 1 "a" (Some "x"%string) 10 10 (Some 20) Synced) = Synced
   -> synced_at (mkNote 1 "a" (Some "x"%string) 10 10 (Some 20) Synced) <> None)
  /\ (synced_at (mkNote 1 "a" (Some "x"%string) 10 10 (Some 20) Synced) = None
      -> needs_sync (mkNote 1 "a" (Some "x"%string) 10 10 (Some 20) Synced)
         = true).
Proof.
  apply (synced_notes_have_a_sync_time 20 synced_db _ synced_db_reachable).
  simpl. auto.
Defined.

(** ** Listing on any column *)

Lemma string_compare_not_gt_trans :
  forall a b c : string,
    String.compare a b <> Gt -> String.compare b c <> Gt ->
    String.compare a c <> Gt.
Proof.
  induction a as [|x a IH]; intros [|y b] [|z c]; simpl; try congruence.
  unfold Ascii.compare.
  destruct (N.compare_spec (N_of_ascii x) (N_of_ascii y)) as [Exy|Lxy|Gxy];
    destruct (N.compare_spec (N_of_ascii y) (N_of_ascii z)) as [Eyz|Lyz|Gyz];
    destruct (N.compare_spec (N_of_ascii x) (N_of_ascii z)) as [Exz|Lxz|Gxz];
    intros Hab Hbc; try congruence; try lia.
  now apply (IH b c).
Qed.

Lemma string_leb_trans (a b c : string) :
  String.leb a b = true -> String.leb b c = true -> String.leb a c = true.
Proof.
  pose proof (string_compare_not_gt_trans a b c) as H. unfold String.leb.
  destruct (String.compare a b), (String.compare b c), (String.compare a c);
    intros; try reflexivity; try discriminate;
    exfalso; apply H; congruence.
Qed.

(** The comparison that [getNotes] ends up sorting with is a total preorder
    and is the order [key_le] names. *)
Lemma effective_column (sortBy : string) :
  exists le,
    column_le (if array_includes allowedColumns sortBy
               then sortBy else "created_at"%string) = Some le
    /\ (forall a b, le a b = true \/ le b a = true)
    /\ (forall a b c, le a b = true -> le b c = true -> le a c = true)
    /\ (forall a b, le a b = true <-> key_le sortBy a b).
Proof.
  unfold array_includes, allowedColumns, key_le, column_le. simpl.
  destruct (String.eqb_spec sortBy "id") as [->|N1]; simpl.
  { eexists. split; [reflexivity|].
    repeat split; intros; rewrite ?Z.leb_le in *; lia. }
  destruct (String.eqb_spec sortBy "title") as [->|N2]; simpl.
  { eexists. split; [reflexivity|]. split; [|split].
    - intros a b. apply String.leb_total.
    - intros a b c. apply string_leb_trans.
    - reflexivity. }
  destruct (String.eqb_spec sortBy "created_at") as [->|N3]; simpl.
  { eexists. split; [reflexivity|].
    repeat split; intros; rewrite ?Z.leb_le in *; lia. }
  destruct (String.eqb_spec sortBy "updated_at") as [->|N4]; simpl.
  { eexists. split; [reflexivity|].
    repeat split; intros; rewrite ?Z.leb_le in *; lia. }
  eexists. split; [reflexivity|].
  repeat split; intros; rewrite ?Z.leb_le in *; lia.
Qed.

(** X18. [getNotes] never raises, whatever strings it is given: it returns
    all the notes of the table, sorted on the requested column when that is
    id, title, created_at or updated_at and on created_at otherwise,
    ascending when the uppercased order is ASC and descending otherwise. *)
Theorem getNotes_lists_everything_sorted :
  forall (toUpperCase : string -> string) (sortBy order : string) (db : Db),
    exists result,
      getNotes toUpperCase sortBy order db = Ok result
      /\ Permutation result (rows db)
      /\ StronglySorted
           (fun a b => if (toUpperCase order =? "ASC")%string
                       then key_le sortBy a b else key_le sortBy b a)
           result.
Proof.
  intros toUpperCase sortBy order db.
  destruct (effective_column sortBy) as (le & Hcol & Htot & Htrans & Hle).
  unfold getNotes, sql_select_ordered. rewrite Hcol.
  destruct (toUpperCase order =? "ASC")%string; simpl.
  - eexists. split; [reflexivity|]. split; [apply order_by_perm|].
    apply StronglySorted_weaken with (R := fun a b => le a b = true).
    + intros a b. apply Hle.
    + now apply order_by_sorted.
  - eexists. split; [reflexivity|]. split; [apply order_by_perm|].
    apply StronglySorted_weaken with (R := fun a b => le b a = true).
    + intros a b. apply Hle.
    + apply order_by_sorted.
      * intros a b. destruct (Htot a b); auto.
      * intros a b c H1 H2. eapply Htrans; eauto.
Qed.

(** ** Search with any query *)

Lemma skip_any_nil (s : list ascii) : skip_any [] s = true.
Proof. induction s as [|d s IH]; simpl; auto. Qed.

Lemma like_only_percent (p : list ascii) :
  Forall (fun c => c = "%"%char) p ->
  forall s, like_chars ("%"%char :: p) s = true.
Proof.
  induction 1 as [|c p Hc _ IH]; intros s; rewrite like_percent.
  - apply skip_any_nil.
  - subst c. destruct s as [|d s]; cbn [skip_any]; rewrite IH; reflexivity.
Qed.

(** X19. Whatever the query (wildcards included), [searchNotes] returns rows
    of the table, each at most as often as the table holds it, newest
    creation first; it never invents or changes a note. *)
Theorem searchNotes_returns_rows_newest_first :
  forall (query : string) (db : Db),
    (exists keep, Permutation (searchNotes query db) (filter keep (rows db)))
    /\ (forall n, In n (searchNotes query db) -> In n (rows db))
    /\ (List.length (searchNotes query db) <= List.length (rows db))%nat
    /\ StronglySorted (fun a b => created_at b <= created_at a)
                      (searchNotes query db).
Proof.
  intros query db.
  assert (Hperm : Permutation (searchNotes query db)
                    (filter (search_hit ("%" ++ query ++ "%")) (rows db)))
    by apply order_by_perm.
  split; [eexists; exact Hperm|]. split; [|split].
  - intros n Hin. apply (Permutation_in _ Hperm) in Hin.
    apply filter_In in Hin. tauto.
  - rewrite (Permutation_length Hperm). apply filter_length_le.
  - apply order_by_key_descending.
Qed.

(** X20. The query is not escaped: a query made only of [%] characters
    (one or more) matches every title, so [searchNotes] returns every
    note. *)
Theorem searchNotes_percent_matches_everything :
  forall (query : string) (db : Db),
    Forall (fun c => c = "%"%char) (list_ascii_of_string query) ->
    Permutation (searchNotes query db) (rows db).
Proof.
  intros query db Hq. unfold searchNotes.
  rewrite order_by_perm, filter_all; [reflexivity|].
  intros n _. unfold search_hit, sql_like.
  change ("%" ++ query ++ "%")%string with (String "%" (query ++ "%")).
  cbn [list_ascii_of_string]. rewrite list_ascii_of_string_app.
  rewrite like_only_percent; [reflexivity|].
  apply Forall_app. split; [exact Hq|]. repeat constructor.
Qed.

Lemma searchNotes_percent_witness :
  searchNotes "%" demo_db
  = [demo_note 2 "b" 30 Pending;
     demo_note 3 "c" 20 Pending;
     demo_note 1 "a" 10 Pending]
  /\ Permutation (searchNotes "%" demo_db) (rows demo_db).
Proof.
  split; [reflexivity|].
  apply (searchNotes_percent_matches_everything "%" demo_db).
  repeat constructor.
Defined.

(** ** The IPC handlers *)

Lemma find_has_id_none (i : Z) (db : Db) :
  (forall n, In n (rows db) -> id n <> i) -> getNoteById i db = None.
Proof. intros H. now apply find_none_iff. Qed.

Lemma find_has_id_some (i : Z) (db : Db) :
  (exists n, In n (rows db) /\ id n = i) ->
  exists m, getNoteById i db = Some m /\ In m (rows db) /\ id m = i.
Proof.
  intros (n & Hin & Hid). unfold getNoteById.
  destruct (find (has_id i) (rows db)) as [m|] eqn:E.
  - exists m. apply find_some in E as [Hm Hi]. repeat split; auto.
    now apply Z.eqb_eq.
  - exfalso. now apply (proj1 (find_none_iff i (rows db)) E n Hin).
Qed.

Lemma updateNote_run_found (now : timestamp) (i : Z) (n : Note) (t : string)
  (c : option string) (db : Db) :
  getNoteById i db = Some n ->
  updateNote now i (Some t) c db
  = (Ok (Some (set_text now t c n)),
     {| rows := update_rows (has_id i) (set_text now t c) (rows db);
        seq := seq db |}).
Proof.
  intros Hget. unfold getNoteById in Hget.
  pose proof (find_some _ _ Hget) as [Hin Hid].
  pose proof (count_rows_hit _ _ n Hin Hid) as Hcount.
  unfold updateNote, bind, stmt, sql_update, ret, read, getNoteById.
  destruct (count_rows (has_id i) (rows db)) as [|k]; [now elim Hcount|].
  simpl. rewrite find_update_rows by reflexivity. now rewrite Hget.
Qed.

Lemma update_rows_never_hit (p : Note -> bool) (f : Note -> Note)
  (rs : list Note) :
  find p rs = None -> update_rows p f rs = rs.
Proof.
  induction rs as [|m rs IH]; simpl; [reflexivity|].
  destruct (p m); [discriminate|]. intros H. now rewrite IH.
Qed.

Lemma updateNote_run_missing (now : timestamp) (i : Z) (t c : option string)
  (db : Db) :
  getNoteById i db = None -> updateNote now i t c db = (Ok None, db).
Proof.
  intros Hnone. unfold getNoteById in Hnone.
  pose proof (proj2 (count_rows_zero_iff _ _) Hnone) as Hcount.
  unfold updateNote, bind, stmt, sql_update, ret. rewrite Hcount.
  destruct t as [t'|]; simpl; [|reflexivity].
  rewrite update_rows_never_hit; [now destruct db|exact Hnone].
Qed.

(** X21. The handlers for reading and deleting report a missing id without
    raising: ['db:getNoteById'] answers [success: false] with the error
    [Note not found], ['db:deleteNote'] answers [success: false] with that
    text as [message] and leaves the table alone.  For an id that has a row,
    the first answers with a row of that id as [data] and the second with
    [success: true] and the message [Note deleted]. *)
Theorem ipc_get_and_delete_report_missing_ids :
  forall (i : Z) (db : Db),
    ((forall n, In n (rows db) -> id n <> i) ->
       ipc_getNoteById i db = Ipc.failure note_not_found
       /\ ipc_deleteNote i db
          = (Ipc.mk false None None (Some note_not_found) None, db))
    /\ ((exists n, In n (rows db) /\ id n = i) ->
          (exists m, ipc_getNoteById i db = Ipc.with_data (Some m)
                     /\ In m (rows db) /\ id m = i)
          /\ fst (ipc_deleteNote i db)
             = Ipc.mk true None None (Some "Note deleted"%string) None
          /\ ipc_getNoteById i (snd (ipc_deleteNote i db))
             = Ipc.failure note_not_found).
Proof.
  intros i db. unfold ipc_getNoteById, ipc_deleteNote.
  rewrite deleteNote_run. split.
  - intros Hnone. pose proof (find_has_id_none i db Hnone) as Hget.
    rewrite Hget. split; [reflexivity|].
    unfold getNoteById in Hget. rewrite (filter_no_hit _ _ Hget).
    apply count_rows_zero_iff in Hget. rewrite Hget. now destruct db.
  - intros Hex. destruct (find_has_id_some i db Hex) as (m & Hget & Hin & Hid).
    rewrite Hget. split; [now exists m|].
    assert (Hc : count_rows (has_id i) (rows db) <> O).
    { apply (count_rows_hit _ _ m Hin). unfold has_id. now apply Z.eqb_eq. }
    destruct (count_rows (has_id i) (rows db)); [now elim Hc|]. simpl.
    split; [reflexivity|].
    unfold getNoteById. simpl. now rewrite find_filter_out.
Qed.

Lemma ipc_get_and_delete_witness :
  (ipc_getNoteById 9 demo_db = Ipc.failure note_not_found
   /\ ipc_deleteNote 9 demo_db
      = (Ipc.mk false None None (Some note_not_found) None, demo_db))
  /\ fst (ipc_deleteNote 2 demo_db)
     = Ipc.mk true None None (Some "Note deleted"%string) None.
Proof.
  split.
  - apply (proj1 (ipc_get_and_delete_report_missing_ids 9 demo_db)).
    intros n [<-|[<-|[<-|[]]]]; discriminate.
  - apply (proj2 (ipc_get_and_delete_report_missing_ids 2 demo_db)).
    exists (demo_note 2 "b" 30 Pending). split; [simpl; auto|reflexivity].
Defined.

(** X22. ['db:updateNote'] has three answers, none of them an exception:
    for an id with no row, [success: false] with the error [Note not found];
    for a row and a [null] title, [success: false] with the engine's
    NOT NULL message; in both the table is untouched.  For a row and a
    title, [success: true] with the updated note as [data]. *)
Theorem ipc_updateNote_answers :
  forall (now : timestamp) (i : Z) (c : option string) (db : Db),
    ((forall n, In n (rows db) -> id n <> i) ->
       forall t, ipc_updateNote now i t c db
                 = (Ipc.failure note_not_found, db))
    /\ ((exists n, In n (rows db) /\ id n = i) ->
          ipc_updateNote now i None c db = (Ipc.failure not_null_title, db)
          /\ forall t,
               exists n',
                 fst (ipc_updateNote now i (Some t) c db)
                 = Ipc.with_data (Some n')
                 /\ id n' = i /\ title n' = t /\ content n' = c
                 /\ sync_status n' = Pending
                 /\ getNoteById i (snd (ipc_updateNote now i (Some t) c db))
                    = Some n').
Proof.
  intros now i c db. unfold ipc_updateNote. split.
  - intros Hnone t.
    now rewrite (updateNote_run_missing now i t c db (find_has_id_none i db Hnone)).
  - intros Hex. destruct (find_has_id_some i db Hex) as (m & Hget & Hin & Hid).
    split.
    + unfold updateNote, bind, stmt, sql_update.
      assert (Hc : count_rows (has_id i) (rows db) <> O).
      { apply (count_rows_hit _ _ m Hin). unfold has_id. now apply Z.eqb_eq. }
      destruct (count_rows (has_id i) (rows db)); [now elim Hc|reflexivity].
    + intros t. rewrite (updateNote_run_found now i m t c db Hget). simpl.
      eexists. split; [reflexivity|]. simpl. repeat split; auto.
      unfold getNoteById in *. simpl.
      rewrite find_update_rows by reflexivity. now rewrite Hget.
Qed.

Lemma ipc_updateNote_witness :
  ipc_updateNote 40 9 (Some "t"%string) None demo_db
  = (Ipc.failure note_not_found, demo_db)
  /\ ipc_updateNote 40 2 None None demo_db
     = (Ipc.failure not_null_title, demo_db).
Proof.
  split.
  - apply (proj1 (ipc_updateNote_answers 40 9 None demo_db)).
    intros n [<-|[<-|[<-|[]]]]; discriminate.
  - apply (proj2 (ipc_updateNote_answers 40 2 None demo_db)).
    exists (demo_note 2 "b" 30 Pending). split; [simpl; auto|reflexivity].
Defined.

Lemma insertMany_raise_message (clock : nat -> timestamp)
  (inputs : list NoteInput) :
  forall (ids : list Z) (db : Db) (e : string) (db' : Db),
    insertMany clock inputs ids db = (Raise e, db') -> e = not_null_title.
Proof.
  induction inputs as [|inp rest IH]; intros ids db e db' Hrun.
  - discriminate.
  - simpl in Hrun. unfold bind, stmt, sql_insert in Hrun.
    destruct (in_title inp) as [t|].
    + eapply IH. exact Hrun.
    + now injection Hrun as <- _.
Qed.

(** X23. ['db:addNotesBulk'] answers [success: true] with the new ids as
    [data] and their number, the number of inputs, as [count], the table
    having grown by that many rows; or, when an element has a [null] title,
    [success: false] with the engine's NOT NULL message, the table being
    exactly as before. *)
Theorem ipc_addNotesBulk_answers :
  forall (clock : nat -> timestamp) (inputs : list NoteInput) (db : Db),
    match ipc_addNotesBulk clock inputs db with
    | (reply, db') =>
        if Ipc.success reply
        then Ipc.count reply = Some (List.length inputs)
             /\ (exists ids, Ipc.data reply = Some ids
                             /\ List.length ids = List.length inputs
                             /\ NoDup ids)
             /\ List.length (rows db')
                = (List.length (rows db) + List.length inputs)%nat
             /\ Forall (fun inp => in_title inp <> None) inputs
        else reply = Ipc.failure not_null_title
             /\ db' = db
             /\ Exists (fun inp => in_title inp = None) inputs
    end.
Proof.
  intros clock inputs db. unfold ipc_addNotesBulk, addNotesBulk, transaction.
  destruct (insertMany clock inputs [] db) as [[out|e] db'] eqn:Hrun; simpl.
  - apply insertMany_ok in Hrun.
    destruct Hrun as (new & -> & Hrows & Hall & Hsorted & _). simpl.
    pose proof (Forall2_length Hall) as Hlen. rewrite length_map.
    split; [now rewrite Hlen|]. split; [|split].
    + eexists. split; [reflexivity|]. rewrite length_map.
      split; [auto|now apply StronglySorted_lt_NoDup].
    + rewrite Hrows, length_app. lia.
    + clear -Hall. induction Hall as [|inp r inputs new Hr _ IH];
        constructor; [|exact IH]. destruct Hr as (Ht & _). congruence.
  - rewrite (insertMany_raise_message _ _ _ _ _ _ Hrun).
    repeat split. eapply insertMany_raises. exact Hrun.
Qed.

(** ** The backend's endpoint, and a cycle against it *)

Lemma sync_loop_lists (throws : list Backend.entity -> Wire.note -> bool)
  (clock : nat -> timestamp) (ws : list Wire.note) :
  forall (store : list Backend.entity) (s0 f0 : list Z),
    exists s1 f1,
      fst (Backend.sync_loop throws clock ws store s0 f0) = (s0 ++ s1, f0 ++ f1)
      /\ Permutation (s1 ++ f1) (map Wire.id ws)
      /\ ((forall st w, throws st w = false) ->
          s1 = map Wire.id ws /\ f1 = []).
Proof.
  induction ws as [|w ws IH]; intros store s0 f0; simpl.
  - exists [], []. rewrite !app_nil_r. repeat split; auto.
  - destruct (throws store w) eqn:Et.
    + destruct (IH store s0 (f0 ++ [Wire.id w])) as (s1 & f1 & E & Hp & Hn).
      exists s1, (Wire.id w :: f1). rewrite E, <- app_assoc. simpl.
      split; [reflexivity|]. split.
      * symmetry. apply Permutation_cons_app. now symmetry.
      * intros Hnever. rewrite Hnever in Et. discriminate.
    + destruct (IH (Backend.upsert
                      (clock (List.length s0 + List.length f0)%nat) w store)
                   (s0 ++ [Wire.id w]) f0) as (s1 & f1 & E & Hp & Hn).
      exists (Wire.id w :: s1), f1. rewrite E, <- app_assoc. simpl.
      split; [reflexivity|]. split.
      * now constructor.
      * intros Hnever. destruct (Hn Hnever) as [-> ->]. auto.
Qed.

(** X24. The endpoint answers a request that carries a notes array with
    201 and two id lists that together hold the id of every note of the
    request exactly as often as the request does: each note is reported
    either synced or failed, never both and never dropped.  When the
    repository never throws, every id is reported synced, in request
    order. *)
Theorem backend_sync_reports_every_note_once :
  forall (throws : list Backend.entity -> Wire.note -> bool)
         (clock : nat -> timestamp) (ws : list Wire.note)
         (store : list Backend.entity),
    exists s f,
      fst (Backend.sync throws clock (Some ws) store)
      = mkResponse true 201 "Created" (JsonObject (Some s) (Some f))
      /\ Permutation (s ++ f) (map Wire.id ws)
      /\ (List.length s + List.length f)%nat = List.length ws
      /\ ((forall st w, throws st w = false) ->
          s = map Wire.id ws /\ f = []).
Proof.
  intros throws clock ws store.
  destruct (sync_loop_lists throws clock ws store [] [])
    as (s & f & E & Hp & Hn).
  exists s, f. unfold Backend.sync.
  destruct (Backend.sync_loop throws clock ws store [] [])
    as [[s' f'] store'] eqn:El.
  simpl in E. injection E as -> ->. simpl.
  split; [reflexivity|]. split; [exact Hp|]. split; [|exact Hn].
  rewrite <- length_app, (Permutation_length Hp). apply length_map.
Qed.

Lemma backend_sync_witness :
  exists s f,
    fst (Backend.sync (fun _ w => Wire.id w =? 3) (fun _ => 50)
           (Some (map to_wire (getNotesToSync demo_db))) [])
    = mkResponse true 201 "Created" (JsonObject (Some s) (Some f))
    /\ Permutation (s ++ f) [1; 3; 2]
    /\ s = [1; 2] /\ f = [3].
Proof.
  destruct (backend_sync_reports_every_note_once
              (fun _ w => Wire.id w =? 3) (fun _ => 50)
              (map to_wire (getNotesToSync demo_db)) [])
    as (s & f & Hresp & Hp & _ & _).
  exists s, f. split; [exact Hresp|]. split; [exact Hp|].
  cbv in Hresp. injection Hresp as -> ->. split; reflexivity.
Defined.









(** ** The renderer's default listing and the empty search *)

(** X27. What the renderer shows for a blank search box, the listing
    [getNotes('created_at', 'DESC')], is exactly what [searchNotes('')]
    returns: every note, newest creation first, ties in the same order. *)
Theorem default_listing_is_the_empty_search :
  forall (toUpperCase : string -> string) (db : Db),
    toUpperCase "DESC"%string = "DESC"%string ->
    getNotes toUpperCase "created_at" "DESC" db = Ok (searchNotes "" db).
Proof.
  intros toUpperCase db Hup. unfold getNotes, searchNotes. rewrite Hup.
  cbn [array_includes allowedColumns existsb String.eqb Ascii.eqb Bool.eqb
       orb sql_select_ordered column_le].
  rewrite filter_all; [reflexivity|].
  intros n _. apply (search_hit_matches "" n (Forall_nil _)).
  left. apply contains_nocase_empty.
Qed.

Lemma default_listing_witness :
  getNotes toUpperCase_ascii "created_at" "DESC" demo_db
  = Ok (searchNotes "" demo_db).
Proof.
  exact (default_listing_is_the_empty_search toUpperCase_ascii demo_db eq_refl).
Defined.
